(** * NU-MILA, [notebooks/timing.ipynb]: neighbour overlap and cosine similarity

    A shallow embedding of the two helper functions the notebook defines,

    - [common_neighbors(lst1, lst2)]  (the spec's [count_common_neighbors]),
    - [cosine(a, b)],

    together with the properties the specification states about them.

    [common_neighbors] works on Python lists of comparable elements and returns
    a Python [int].  It is embedded over [list A], for a type [A] whose [==] is
    a decidable equality (integers, strings, symbols), and returns a [Z].

    [cosine] works on numpy [float64] arrays.  Its body is embedded once, over
    an abstract arithmetic, and read twice: over the binary64 numbers of the
    kernel ([Module F64], what the notebook executes) and over the real numbers
    ([Module Exact], the exact arithmetic in which the specification states the
    algebraic properties).  The properties that hold of the second reading only
    are stated there, with the binary64 input on which the first reading
    departs from them. *)

From Stdlib Require Import List ZArith Lia Bool Arith.
From Stdlib Require Import Reals Lra.
From Stdlib Require Import Floats.
Import ListNotations.

Set Implicit Arguments.

(* ================================================================== *)
(** * Part 1: [common_neighbors] *)
(* ================================================================== *)

(** ** [utils.neighbors] *)

Module Utils.
Section Neighbors.
Variable A : Type.

(** Modelled from the spec: the notebook imports [utils] and calls
    [utils.neighbors], but the module [utils] is not among the sources.  The
    specification describes what it yields: "for a sequence of length n, the
    (n-1) pairs of adjacent elements taken in order", each pair being
    "(element at position i, element at position i+1)".  The one call whose
    output the notebook records, [common_neighbors([1,2,3], [3,1,2])] giving
    1, agrees with this reading. *)
Fixpoint neighbors (lst : list A) : list (A * A) :=
  match lst with
  | [] => []
  | x :: tl =>
      match tl with
      | [] => []
      | y :: _ => (x, y) :: neighbors tl
      end
  end.

(** The element of [lst] at positions [i] and [i+1], when both exist. *)
Definition adjacent (lst : list A) (i : nat) : option (A * A) :=
  match nth_error lst i, nth_error lst (S i) with
  | Some x, Some y => Some (x, y)
  | _, _ => None
  end.

End Neighbors.
End Utils.

(** ** The notebook's function *)

Section CommonNeighbors.
Variable A : Type.
Variable A_eq_dec : forall x y : A, {x = y} + {x <> y}.

(** The iterable [utils.neighbors] returns.  The generator expression of
    [common_neighbors] evaluates [utils.neighbors(lst2)] anew for every
    [pair1], so nothing is shared between the rounds of the outer loop and a
    pure function from the list to the pairs it yields is a faithful reading
    of the call. *)
Variable utils_neighbors : list A -> list (A * A).

(** [pair1 == pair2] on two 2-tuples: component-wise [==], in order. *)
Definition tuple_eq (pair1 pair2 : A * A) : bool :=
  (if A_eq_dec (fst pair1) (fst pair2) then true else false)
  && (if A_eq_dec (snd pair1) (snd pair2) then true else false).

(** Python's [sum] over an iterable of [bool]: it starts from the [int] 0
    and adds the items from left to right, [True] counting 1 and [False] 0. *)
Definition py_sum (items : list bool) : Z :=
  fold_left (fun acc item => (acc + Z.b2z item)%Z) items 0%Z.

(** [[
    def common_neighbors(lst1, lst2):
        return sum(pair1 == pair2
            for pair1 in utils.neighbors(lst1)
            for pair2 in utils.neighbors(lst2))
    ]] *)
Definition common_neighbors (lst1 lst2 : list A) : Z :=
  py_sum
    (flat_map
       (fun pair1 => map (fun pair2 => tuple_eq pair1 pair2) (utils_neighbors lst2))
       (utils_neighbors lst1)).

(** *** Reference notions used to state the properties *)

Definition pair_eq_dec : forall p q : A * A, {p = q} + {p <> q}.
Proof. decide equality. Defined.

(** Multiplicity of the pair [p] among the pairs [ps]. *)
Definition multiplicity (ps : list (A * A)) (p : A * A) : nat :=
  count_occ pair_eq_dec ps p.

(** The pairs of [ps], each listed once. *)
Definition distinct (ps : list (A * A)) : list (A * A) :=
  nodup pair_eq_dec ps.

(** [option]-lifted tuple comparison: two positions match when both hold a
    pair and the pairs are equal. *)
Definition adjacent_eq (o1 o2 : option (A * A)) : bool :=
  match o1, o2 with
  | Some p, Some q => tuple_eq p q
  | _, _ => false
  end.

(** The index pairs [(i, j)], [0 <= i < len(S1) - 1], [0 <= j < len(S2) - 1],
    at which [(S1[i], S1[i+1])] equals [(S2[j], S2[j+1])]. *)
Definition matching_index_pairs (S1 S2 : list A) : list (nat * nat) :=
  filter
    (fun ij => adjacent_eq (Utils.adjacent S1 (fst ij)) (Utils.adjacent S2 (snd ij)))
    (list_prod (seq 0 (length S1 - 1)) (seq 0 (length S2 - 1))).

(** Every pair of [ps] counted with its multiplicity in [qs]: the size of the
    set of matching positions in the Cartesian product of [ps] and [qs]. *)
Definition overlap (ps qs : list (A * A)) : nat :=
  list_sum (map (multiplicity qs) ps).

(** The sum, over the distinct pairs of [ps], of (multiplicity in [ps]) times
    (multiplicity in [qs]). *)
Definition multiplicity_products (ps qs : list (A * A)) : nat :=
  list_sum (map (fun p => multiplicity ps p * multiplicity qs p) (distinct ps)).

(** The sum, over the distinct pairs of [ps], of the squared multiplicity. *)
Definition squared_multiplicities (ps : list (A * A)) : nat :=
  list_sum (map (fun p => multiplicity ps p ^ 2) (distinct ps)).

End CommonNeighbors.

(* ================================================================== *)
(** * Part 2: [cosine] *)
(* ================================================================== *)

(** ** The body of [cosine], over an abstract arithmetic

    [[
    def cosine(a,b):
        sumSqA = np.sum(a**2.0)
        sumSqB = np.sum(b**2.0)
        if sumSqA == 0.0 or sumSqB == 0.0: return 0.0
        return np.dot(a,b) * (sumSqA * sumSqB)**-0.5
    ]]

    A vector is a one-dimensional numpy array, embedded as the list of its
    components.  The arithmetic is a parameter: the number type, its zero,
    [+], [*], [==], and the scalar power [x ** -0.5]. *)

Section Cosine.
Variable F : Type.
Variable zero : F.
Variables add mul : F -> F -> F.
Variable eqb : F -> F -> bool.
Variable pow_neg_half : F -> F.

(** [a ** 2.0] on an array: numpy evaluates a power whose exponent is the
    scalar 2.0 with its squaring loop, [x * x] for each component. *)
Definition np_square (a : list F) : list F :=
  map (fun x => mul x x) a.

(** [np.sum]: the components added up, starting from zero.  The components
    are added from left to right, as numpy does for an array of fewer than
    eight components (longer arrays are added in blocks; over the reals the
    order makes no difference, and the binary64 statements below are about
    sums of zeros or about vectors of at most three components). *)
Definition np_sum (a : list F) : F :=
  fold_left add a zero.

(** [np.dot] on two one-dimensional arrays: the sum of the component-wise
    products; numpy raises [ValueError] (here [None]) when the lengths
    differ.  It is called only after the test on the sums of squares, so a
    call that takes the fallback never raises. *)
Definition np_dot (a b : list F) : option F :=
  if Nat.eqb (length a) (length b)
  then Some (np_sum (map (fun xy => mul (fst xy) (snd xy)) (combine a b)))
  else None.

Definition cosine (a b : list F) : option F :=
  let sumSqA := np_sum (np_square a) in
  let sumSqB := np_sum (np_square b) in
  if eqb sumSqA zero || eqb sumSqB zero then Some zero
  else
    match np_dot a b with
    | Some d => Some (mul d (pow_neg_half (mul sumSqA sumSqB)))
    | None => None
    end.

End Cosine.

(** ** Reading 1: binary64, as the notebook runs it *)

Module F64.

(** [x ** -0.5] on a [float64] scalar is the C library's [pow(x, -0.5)].
    Annex F of the C standard fixes its value at the special arguments: NaN
    for a NaN or a negative argument (the exponent is not an integer), [+inf]
    at a zero of either sign, [+0] at an infinity of either sign.  On a
    positive finite argument the result is the library's rounding of
    [1 / sqrt x], which the kernel's floats do not provide: it is the
    parameter [pow_finite], and nothing is assumed of it.  (numpy scalars
    signal the division by zero with a warning and return the value.) *)
Definition pow_neg_half (pow_finite : float -> float) (x : float) : float :=
  if PrimFloat.is_nan x then nan
  else if PrimFloat.is_zero x then infinity
  else if PrimFloat.is_infinity x then 0%float
  else if PrimFloat.ltb x 0%float then nan
  else pow_finite x.

Definition sum_squares (v : list float) : float :=
  np_sum 0%float PrimFloat.add (np_square PrimFloat.mul v).

Definition dot (a b : list float) : option float :=
  np_dot 0%float PrimFloat.add PrimFloat.mul a b.

(** The body of [cosine] over binary64 with an arbitrary function in the
    place of the power step [x ** -0.5]: what [cosine] returns with it shows
    what does not depend on that step. *)
Definition cosine_with (power : float -> float) (a b : list float) : option float :=
  cosine 0%float PrimFloat.add PrimFloat.mul PrimFloat.eqb power a b.

Definition cosine (pow_finite : float -> float) (a b : list float) : option float :=
  cosine 0%float PrimFloat.add PrimFloat.mul PrimFloat.eqb
    (pow_neg_half pow_finite) a b.

(** The all-zero vector: every component compares equal to 0.0. *)
Definition all_zero (v : list float) : bool :=
  forallb (fun x => PrimFloat.eqb x 0%float) v.

(** [2^-700], [2^-300] and [2^600]: three ordinary binary64 numbers.  The
    square of the first underflows to 0.0; the square of the second is
    [2^-600], whose own square underflows; the square of the third overflows
    to [+inf]. *)
Definition tiny : float := 0x1p-700%float.
Definition small : float := 0x1p-300%float.
Definition huge : float := 0x1p600%float.

(** Membership in the closed interval [-1, 1], with the comparisons of
    binary64 (false on NaN). *)
Definition in_unit_interval (x : float) : bool :=
  PrimFloat.leb (-1)%float x && PrimFloat.leb x 1%float.

(** The naive quotient [dot(a,b) / (|a| * |b|)], with [|v|] the square root of
    the sum of squares, in binary64. *)
Definition quotient_cosine (a b : list float) : option float :=
  match dot a b with
  | Some d =>
      Some (PrimFloat.div d
              (PrimFloat.mul (PrimFloat.sqrt (sum_squares a))
                             (PrimFloat.sqrt (sum_squares b))))
  | None => None
  end.

End F64.

(** ** Reading 2: exact arithmetic over the real numbers *)

Module Exact.

Definition eqb (x y : R) : bool :=
  if Req_dec_T x y then true else false.

(** [x ** -0.5] for a real [x].  [Rpower x y] is [exp (y * ln x)], the power
    function on positive [x]; [cosine] only reaches it with the product of two
    non-zero sums of squares, which is positive. *)
Definition pow_neg_half (x : R) : R :=
  Rpower x (- / 2).

Definition sum_squares (v : list R) : R :=
  np_sum 0%R Rplus (np_square Rmult v).

Definition dot (a b : list R) : option R :=
  np_dot 0%R Rplus Rmult a b.

Definition cosine (a b : list R) : option R :=
  cosine 0%R Rplus Rmult eqb pow_neg_half a b.

(** The Euclidean norm. *)
Definition norm (v : list R) : R :=
  R_sqrt.sqrt (sum_squares v).

(** A non-zero vector has a non-zero component. *)
Definition nonzero (v : list R) : Prop :=
  Exists (fun x => x <> 0%R) v.

(** [c . a]: every component of [a] multiplied by [c]. *)
Definition scale (c : R) (a : list R) : list R :=
  map (fun x => (c * x)%R) a.

(** The sum of the component-wise products that [np.dot] returns when the
    lengths agree. *)
Definition products (a b : list R) : R :=
  np_sum 0%R Rplus (map (fun xy => (fst xy * snd xy)%R) (combine a b)).

(** The naive quotient [dot(a,b) / (|a| * |b|)] of the specification. *)
Definition quotient_cosine (a b : list R) : option R :=
  match dot a b with
  | Some d => Some (d / (norm a * norm b))%R
  | None => None
  end.

End Exact.

(* ================================================================== *)
(** * Part 2b: the summation helpers *)
(* ================================================================== *)

(** [[
    class Wrap:
        def __init__(self, a):
            self.a = a

    def gen_sum_wrap(lst): return sum(w.a for w in lst)

    def loop_sum_wrap(lst):
        sum_ = 0
        for w in lst:
            sum_ += w.a
        return sum_

    def loop_sum(lst):
        sum_ = 0
        for w in lst:
            sum_ += w
        return sum_
    ]]

    The notebook calls them on [lst = [v1, v2]*50], a list that holds the same
    two numpy arrays fifty times over, and on [w_lst = [Wrap(v) for v in lst]].
    The arrays are objects of a store, the lists hold references to them, and
    [+=] on an array writes into it: the store and the aliasing are part of
    the embedding.  The arithmetic of the components is a parameter, as for
    [cosine]. *)

Module Sums.
Section WithArithmetic.
Variable F : Type.
Variable zero : F.
Variable add : F -> F -> F.

(** The store: the one-dimensional [float64] arrays that exist, by address. *)
Definition store : Type := list (list F).

(** What the variable [sum_] (the running result of [sum]) holds: the [int] 0
    it starts from, or a reference to an array. *)
Inductive value : Type :=
| PyZero
| Ref (r : nat).

(** An instance of [Wrap]: its attribute [a] refers to an array. *)
Record Wrap : Type := { a : nat }.

(** A computation on the store; [None] is a raised [ValueError] (or a
    reference to no array, which no Python program holds). *)
Definition M (A : Type) : Type := store -> option (A * store).

Definition ret (A : Type) (x : A) : M A :=
  fun s => Some (x, s).

Definition bind (A B : Type) (c : M A) (k : A -> M B) : M B :=
  fun s => match c s with
           | Some (x, s') => k x s'
           | None => None
           end.

Definition raise_or (A : Type) (o : option A) : M A :=
  fun s => match o with
           | Some x => Some (x, s)
           | None => None
           end.

Definition read (r : nat) : M (list F) :=
  fun s => match nth_error s r with
           | Some arr => Some (arr, s)
           | None => None
           end.

(** A new array, at the first free address. *)
Definition alloc (arr : list F) : M nat :=
  fun s => Some (length s, s ++ [arr]).

Fixpoint update (r : nat) (arr : list F) (s : store) : store :=
  match s, r with
  | [], _ => []
  | _ :: tl, O => arr :: tl
  | x :: tl, S r' => x :: update r' arr tl
  end.

Definition write (r : nat) (arr : list F) : M unit :=
  fun s => if Nat.ltb r (length s) then Some (tt, update r arr s) else None.

(** Component-wise sum of two arrays of the same length. *)
Definition zip_add (x y : list F) : list F :=
  map (fun xy => add (fst xy) (snd xy)) (combine x y).

(** [np.add(x, y)] on one-dimensional arrays, with numpy's broadcasting: the
    lengths are equal, or one of them is 1 and its component is added to
    every component of the other; otherwise [ValueError]. *)
Definition broadcast_add (x y : list F) : option (list F) :=
  if Nat.eqb (length x) (length y) then Some (zip_add x y)
  else
    match x, y with
    | [x0], _ => Some (map (fun yi => add x0 yi) y)
    | _, [y0] => Some (map (fun xi => add xi y0) x)
    | _, _ => None
    end.

(** [np.add(x, y, out=x)]: the result must have the shape of [x], so only [y]
    may be broadcast. *)
Definition inplace_add (x y : list F) : option (list F) :=
  if Nat.eqb (length x) (length y) then Some (zip_add x y)
  else
    match y with
    | [y0] => Some (map (fun xi => add xi y0) x)
    | _ => None
    end.

(** [0 + w] for the [int] 0 and an array [w]: a new array, each component
    added to zero. *)
Definition zero_plus (w : nat) : M value :=
  bind (read w) (fun arr =>
  bind (alloc (map (fun x => add zero x) arr)) (fun r =>
  ret (Ref r))).

(** [result + item], as [sum] computes it: always a new array. *)
Definition py_add (v : value) (w : nat) : M value :=
  match v with
  | PyZero => zero_plus w
  | Ref r =>
      bind (read r) (fun x =>
      bind (read w) (fun y =>
      bind (raise_or (broadcast_add x y)) (fun z =>
      bind (alloc z) (fun r' =>
      ret (Ref r')))))
  end.

(** [sum_ += w].  An [int] has no in-place addition, so the first round
    evaluates [0 + w] and binds [sum_] to the new array; from then on [sum_]
    is an array and [+=] adds into it. *)
Definition py_iadd (v : value) (w : nat) : M value :=
  match v with
  | PyZero => zero_plus w
  | Ref r =>
      bind (read r) (fun x =>
      bind (read w) (fun y =>
      bind (raise_or (inplace_add x y)) (fun z =>
      bind (write r z) (fun _ =>
      ret (Ref r)))))
  end.

(** [for w in lst: acc = body(acc, w)]. *)
Fixpoint for_each (A B : Type) (body : B -> A -> M B) (lst : list A) (acc : B) : M B :=
  match lst with
  | [] => ret acc
  | w :: tl => bind (body acc w) (fun acc' => for_each body tl acc')
  end.

Definition loop_sum (lst : list nat) : M value :=
  for_each py_iadd lst PyZero.

Definition loop_sum_wrap (lst : list Wrap) : M value :=
  for_each (fun sum_ w => py_iadd sum_ (a w)) lst PyZero.

Definition gen_sum_wrap (lst : list Wrap) : M value :=
  for_each (fun result w => py_add result (a w)) lst PyZero.

(** [[Wrap(v) for v in lst]]. *)
Definition wrap_all (lst : list nat) : list Wrap :=
  map Build_Wrap lst.

(** *** Reference notions *)

(** The arrays a list of references stands for, in a store. *)
Fixpoint deref (s : store) (lst : list nat) : option (list (list F)) :=
  match lst with
  | [] => Some []
  | w :: tl =>
      match nth_error s w, deref s tl with
      | Some arr, Some arrs => Some (arr :: arrs)
      | _, _ => None
      end
  end.

(** Folding an addition that may fail over a list of arrays. *)
Fixpoint fold_arrays (op : list F -> list F -> option (list F))
    (arrs : list (list F)) (acc : list F) : option (list F) :=
  match arrs with
  | [] => Some acc
  | y :: tl =>
      match op acc y with
      | Some z => fold_arrays op tl z
      | None => None
      end
  end.

(** The array [loop_sum] computes from the arrays [first :: rest], as a
    function of their contents alone. *)
Definition loop_total (first : list F) (rest : list (list F)) : option (list F) :=
  fold_arrays inplace_add rest (map (fun x => add zero x) first).

(** The same for [sum]. *)
Definition gen_total (first : list F) (rest : list (list F)) : option (list F) :=
  fold_arrays broadcast_add rest (map (fun x => add zero x) first).

(** The content of the array a value refers to. *)
Definition content (s : store) (v : value) : option (list F) :=
  match v with
  | PyZero => None
  | Ref r => nth_error s r
  end.

End WithArithmetic.
End Sums.

(* ================================================================== *)
(** * Part 3: properties of [common_neighbors] *)
(* ================================================================== *)

(** Unfolding steps for the counting notions. *)
Ltac unfold_tuple_eq := unfold tuple_eq.
Ltac unfold_multiplicity := unfold multiplicity.
Ltac unfold_distinct := unfold distinct in *.
Ltac unfold_overlap := unfold overlap.

Section CommonNeighborsFacts.
Variable A : Type.
Variable A_eq_dec : forall x y : A, {x = y} + {x <> y}.

Local Abbreviation tuple_eq := (tuple_eq A_eq_dec).
Local Abbreviation multiplicity := (multiplicity A_eq_dec).
Local Abbreviation distinct := (distinct A_eq_dec).
Local Abbreviation overlap := (overlap A_eq_dec).
Local Abbreviation pair_dec := (pair_eq_dec A_eq_dec).

(** *** The tuple comparison decides equality of pairs *)

Lemma tuple_eq_spec (p q : A * A) : tuple_eq p q = true <-> p = q.
Proof.
  destruct p as [p1 p2], q as [q1 q2]; unfold_tuple_eq; cbn.
  destruct (A_eq_dec p1 q1), (A_eq_dec p2 q2); cbn; split; intro H;
    try discriminate; try reflexivity; try congruence.
Qed.

Lemma tuple_eq_pair_dec (p q : A * A) :
  tuple_eq p q = if pair_dec q p then true else false.
Proof.
  destruct (pair_dec q p) as [E | N].
  - apply tuple_eq_spec; auto.
  - destruct (tuple_eq p q) eqn:T; [|reflexivity].
    apply tuple_eq_spec in T; congruence.
Qed.

(** *** Sums of naturals over a list *)

Lemma list_sum_cons (x : nat) (l : list nat) : list_sum (x :: l) = x + list_sum l.
Proof. reflexivity. Qed.

Lemma list_sum_map_add (B : Type) (f g : B -> nat) (l : list B) :
  list_sum (map (fun x => f x + g x) l) = list_sum (map f l) + list_sum (map g l).
Proof.
  induction l as [| x l IH]; [reflexivity|].
  cbn [map]; rewrite !list_sum_cons, IH; lia.
Qed.

Lemma list_sum_map_ext (B : Type) (f g : B -> nat) (l : list B) :
  (forall x, In x l -> f x = g x) -> list_sum (map f l) = list_sum (map g l).
Proof.
  intro H; f_equal; apply map_ext_in; exact H.
Qed.

(** *** Python's [sum] as a count *)

Lemma py_sum_from (items : list bool) (acc : Z) :
  fold_left (fun a item => (a + Z.b2z item)%Z) items acc = (acc + py_sum items)%Z.
Proof.
  unfold py_sum; revert acc.
  induction items as [| b items IH]; intro acc; cbn [fold_left].
  - lia.
  - rewrite IH, (IH (0 + Z.b2z b)%Z); lia.
Qed.

Lemma py_sum_cons (b : bool) (items : list bool) :
  py_sum (b :: items) = (Z.b2z b + py_sum items)%Z.
Proof. unfold py_sum at 1; cbn; apply py_sum_from. Qed.

Lemma py_sum_app (xs ys : list bool) :
  py_sum (xs ++ ys) = (py_sum xs + py_sum ys)%Z.
Proof.
  induction xs as [| b xs IH]; [reflexivity|].
  cbn [app]; rewrite !py_sum_cons, IH; lia.
Qed.

Lemma py_sum_multiplicity (p : A * A) (qs : list (A * A)) :
  py_sum (map (fun q => tuple_eq p q) qs) = Z.of_nat (multiplicity qs p).
Proof.
  unfold_multiplicity.
  induction qs as [| q qs IH]; [reflexivity|].
  cbn [map count_occ]; rewrite py_sum_cons, IH, tuple_eq_pair_dec.
  destruct (pair_dec q p); cbn [Z.b2z]; lia.
Qed.

Lemma py_sum_overlap (ps qs : list (A * A)) :
  py_sum (flat_map (fun p => map (fun q => tuple_eq p q) qs) ps)
  = Z.of_nat (overlap ps qs).
Proof.
  unfold_overlap.
  induction ps as [| p ps IH]; [reflexivity|].
  cbn [flat_map map]; rewrite list_sum_cons.
  rewrite py_sum_app, IH, py_sum_multiplicity; lia.
Qed.

(** [common_neighbors] counts the matching positions of the two pair lists. *)
Lemma common_neighbors_overlap (nb : list A -> list (A * A)) (lst1 lst2 : list A) :
  common_neighbors A_eq_dec nb lst1 lst2 = Z.of_nat (overlap (nb lst1) (nb lst2)).
Proof. apply py_sum_overlap. Qed.

(** *** The overlap count is symmetric *)

Lemma list_sum_indicator (p : A * A) (f : A * A -> nat) (l : list (A * A)) :
  list_sum (map (fun q => if pair_dec p q then f q else 0) l)
  = multiplicity l p * f p.
Proof.
  unfold_multiplicity.
  induction l as [| q l IH]; [reflexivity|].
  cbn [map count_occ]; rewrite list_sum_cons, IH.
  destruct (pair_dec p q) as [E | N], (pair_dec q p) as [E' | N'];
    subst; try congruence; lia.
Qed.

Lemma overlap_cons_r (ps qs : list (A * A)) (q : A * A) :
  overlap ps (q :: qs) = multiplicity ps q + overlap ps qs.
Proof.
  unfold_overlap.
  rewrite (list_sum_map_ext (multiplicity (q :: qs))
             (fun p => (if pair_dec q p then 1 else 0) + multiplicity qs p)).
  - rewrite list_sum_map_add, list_sum_indicator; lia.
  - intros p _; unfold_multiplicity; cbn [count_occ].
    destruct (pair_dec q p); lia.
Qed.

Lemma overlap_nil_r (ps : list (A * A)) : overlap ps [] = 0.
Proof.
  unfold_overlap; induction ps as [| p ps IH]; [reflexivity|].
  cbn [map]; rewrite list_sum_cons, IH; reflexivity.
Qed.

Lemma overlap_sym (ps qs : list (A * A)) : overlap ps qs = overlap qs ps.
Proof.
  induction qs as [| q qs IH].
  - rewrite overlap_nil_r; reflexivity.
  - rewrite overlap_cons_r, IH; unfold_overlap; reflexivity.
Qed.

(** *** Grouping the count by distinct pairs *)

Lemma multiplicity_cons (p q : A * A) (ps : list (A * A)) :
  multiplicity (p :: ps) q = (if pair_dec p q then 1 else 0) + multiplicity ps q.
Proof.
  unfold_multiplicity; cbn [count_occ].
  destruct (pair_dec p q); reflexivity.
Qed.

Lemma multiplicity_distinct (ps : list (A * A)) (p : A * A) :
  multiplicity (distinct ps) p = if in_dec pair_dec p ps then 1 else 0.
Proof.
  unfold_multiplicity; unfold_distinct.
  destruct (in_dec pair_dec p ps) as [I | N].
  - apply NoDup_count_occ'; [apply NoDup_nodup | apply nodup_In; exact I].
  - apply count_occ_not_In; rewrite nodup_In; exact N.
Qed.

Lemma weighted_sum_cons (p : A * A) (ps l : list (A * A)) (f : A * A -> nat) :
  list_sum (map (fun q => multiplicity (p :: ps) q * f q) l)
  = multiplicity l p * f p + list_sum (map (fun q => multiplicity ps q * f q) l).
Proof.
  rewrite <- list_sum_indicator, <- list_sum_map_add.
  apply list_sum_map_ext; intros q _.
  rewrite multiplicity_cons; destruct (pair_dec p q); lia.
Qed.

(** A sum over a list of pairs is the sum over its distinct pairs, each
    weighted by its multiplicity. *)
Lemma sum_by_distinct (f : A * A -> nat) (ps : list (A * A)) :
  list_sum (map f ps)
  = list_sum (map (fun p => multiplicity ps p * f p) (distinct ps)).
Proof.
  induction ps as [| p ps IH]; [reflexivity|].
  cbn [map]; rewrite list_sum_cons, IH.
  assert (D := multiplicity_distinct ps p).
  unfold_distinct; cbn [nodup].
  destruct (in_dec pair_dec p ps) as [I | N].
  - rewrite weighted_sum_cons, D; lia.
  - cbn [map]; rewrite list_sum_cons, weighted_sum_cons, D, multiplicity_cons.
    assert (Z0 : multiplicity ps p = 0) by (apply count_occ_not_In; exact N).
    rewrite Z0; destruct (pair_dec p p); [lia | congruence].
Qed.

Lemma overlap_by_distinct (ps qs : list (A * A)) :
  overlap ps qs = multiplicity_products A_eq_dec ps qs.
Proof. apply sum_by_distinct. Qed.

Lemma overlap_self (ps : list (A * A)) :
  overlap ps ps = squared_multiplicities A_eq_dec ps.
Proof.
  rewrite overlap_by_distinct.
  unfold multiplicity_products, squared_multiplicities.
  apply list_sum_map_ext; intros p _; cbn [Nat.pow]; lia.
Qed.

(** *** The overlap is bounded by the size of the Cartesian product *)

Lemma multiplicity_le_length (qs : list (A * A)) (p : A * A) :
  multiplicity qs p <= length qs.
Proof.
  unfold_multiplicity; induction qs as [| q qs IH]; cbn [count_occ length].
  - lia.
  - destruct (pair_dec q p); lia.
Qed.

Lemma overlap_le_product (ps qs : list (A * A)) :
  overlap ps qs <= length ps * length qs.
Proof.
  unfold_overlap; induction ps as [| p ps IH]; [cbn; lia|].
  cbn [map length]; rewrite list_sum_cons.
  pose proof (multiplicity_le_length qs p); lia.
Qed.

(** *** What [utils.neighbors] yields *)

Lemma neighbors_length (lst : list A) :
  length (Utils.neighbors lst) = length lst - 1.
Proof.
  induction lst as [| x tl IH]; [reflexivity|].
  destruct tl as [| y tl]; [reflexivity|].
  change (Utils.neighbors (x :: y :: tl)) with ((x, y) :: Utils.neighbors (y :: tl)).
  cbn [length] in *; lia.
Qed.

Lemma neighbors_short (lst : list A) :
  length lst <= 1 -> Utils.neighbors lst = [].
Proof.
  intro H; apply length_zero_iff_nil; rewrite neighbors_length; lia.
Qed.

(** The pair at position [i] of [utils.neighbors(lst)] is
    [(lst[i], lst[i+1])], for [i] from 0 to [len(lst) - 2]. *)
Lemma neighbors_adjacent (lst : list A) :
  map (Utils.adjacent lst) (seq 0 (length lst - 1)) = map Some (Utils.neighbors lst).
Proof.
  induction lst as [| x tl IH]; [reflexivity|].
  destruct tl as [| y tl]; [reflexivity|].
  change (Utils.neighbors (x :: y :: tl)) with ((x, y) :: Utils.neighbors (y :: tl)).
  replace (length (x :: y :: tl) - 1) with (S (length (y :: tl) - 1))
    by (cbn [length]; lia).
  cbn [seq map]; rewrite <- seq_shift, map_map, <- IH.
  reflexivity.
Qed.

(** *** Index pairs *)

Lemma filter_prod_length (B C : Type) (g : B -> C -> bool) (l1 : list B) (l2 : list C) :
  length (filter (fun ij => g (fst ij) (snd ij)) (list_prod l1 l2))
  = list_sum (map (fun i => length (filter (g i) l2)) l1).
Proof.
  induction l1 as [| i l1 IH]; [reflexivity|].
  cbn [list_prod map]; rewrite filter_app, length_app, list_sum_cons, IH.
  f_equal; rewrite filter_map_swap, length_map; reflexivity.
Qed.

Lemma adjacent_matches (p : A * A) (qs : list (A * A)) :
  length (filter (adjacent_eq A_eq_dec (Some p)) (map Some qs)) = multiplicity qs p.
Proof.
  unfold_multiplicity; induction qs as [| q qs IH]; [reflexivity|].
  cbn [map filter adjacent_eq count_occ]; rewrite tuple_eq_pair_dec.
  destruct (pair_dec q p); cbn [length]; rewrite IH; reflexivity.
Qed.

Lemma matching_index_pairs_overlap (S1 S2 : list A) :
  length (matching_index_pairs A_eq_dec S1 S2)
  = overlap (Utils.neighbors S1) (Utils.neighbors S2).
Proof.
  unfold matching_index_pairs.
  rewrite (filter_prod_length
             (fun i j => adjacent_eq A_eq_dec (Utils.adjacent S1 i) (Utils.adjacent S2 j))).
  set (h := fun o => length (filter (adjacent_eq A_eq_dec o)
                               (map Some (Utils.neighbors S2)))).
  transitivity (list_sum (map h (map (Utils.adjacent S1) (seq 0 (length S1 - 1))))).
  - rewrite map_map; apply list_sum_map_ext; intros i _; unfold h.
    rewrite <- neighbors_adjacent, filter_map_swap, length_map.
    reflexivity.
  - rewrite neighbors_adjacent, map_map.
    unfold_overlap; apply list_sum_map_ext; intros p _.
    apply adjacent_matches.
Qed.

End CommonNeighborsFacts.

(** ** The claims about [common_neighbors] *)

(** The call whose output the notebook records. *)
Example common_neighbors_notebook_cell :
  common_neighbors Z.eq_dec (@Utils.neighbors Z) [1; 2; 3]%Z [3; 1; 2]%Z = 1%Z.
Proof. reflexivity. Qed.

(** C1.  With [utils.neighbors] yielding the adjacent pairs, the result of
    [common_neighbors(S1, S2)] is the number of index pairs [(i, j)] at which
    [(S1[i], S1[i+1])] equals [(S2[j], S2[j+1])], taken over the whole
    Cartesian product of the positions; equivalently every distinct adjacent
    pair contributes (its multiplicity in [S1]) times (its multiplicity in
    [S2]).  In particular [common_neighbors([1,2,3,1,2], [1,2,4,1,2]) == 4]. *)
Theorem common_neighbors_counts_index_pairs :
  (forall (A : Type) (A_eq_dec : forall x y : A, {x = y} + {x <> y})
          (S1 S2 : list A),
      common_neighbors A_eq_dec (@Utils.neighbors A) S1 S2
      = Z.of_nat (length (matching_index_pairs A_eq_dec S1 S2))
      /\ common_neighbors A_eq_dec (@Utils.neighbors A) S1 S2
         = Z.of_nat (multiplicity_products A_eq_dec
                       (Utils.neighbors S1) (Utils.neighbors S2)))
  /\ common_neighbors Z.eq_dec (@Utils.neighbors Z)
       [1; 2; 3; 1; 2]%Z [1; 2; 4; 1; 2]%Z = 4%Z.
Proof.
  split; [| reflexivity].
  intros A A_eq_dec S1 S2; rewrite common_neighbors_overlap; split.
  - rewrite matching_index_pairs_overlap; reflexivity.
  - rewrite overlap_by_distinct; reflexivity.
Qed.

(** C5.  [common_neighbors] is symmetric in its two arguments, whatever pairs
    [utils.neighbors] yields. *)
Theorem common_neighbors_sym :
  forall (A : Type) (A_eq_dec : forall x y : A, {x = y} + {x <> y})
         (utils_neighbors : list A -> list (A * A)) (S1 S2 : list A),
    common_neighbors A_eq_dec utils_neighbors S1 S2
    = common_neighbors A_eq_dec utils_neighbors S2 S1.
Proof.
  intros; rewrite !common_neighbors_overlap; f_equal; apply overlap_sym.
Qed.

(** C6.  [common_neighbors(S, S)] is the sum, over the distinct pairs that
    [utils.neighbors(S)] yields, of the square of the pair's multiplicity. *)
Theorem common_neighbors_self :
  forall (A : Type) (A_eq_dec : forall x y : A, {x = y} + {x <> y})
         (utils_neighbors : list A -> list (A * A)) (S : list A),
    common_neighbors A_eq_dec utils_neighbors S S
    = Z.of_nat (squared_multiplicities A_eq_dec (utils_neighbors S)).
Proof.
  intros; rewrite common_neighbors_overlap; f_equal; apply overlap_self.
Qed.

(** C7.  A first sequence of length 0 or 1 has no adjacent pair, and the
    result is 0 whatever the second sequence is. *)
Theorem common_neighbors_short :
  forall (A : Type) (A_eq_dec : forall x y : A, {x = y} + {x <> y})
         (S1 S2 : list A),
    length S1 <= 1 ->
    Utils.neighbors S1 = []
    /\ common_neighbors A_eq_dec (@Utils.neighbors A) S1 S2 = 0%Z.
Proof.
  intros A A_eq_dec S1 S2 H.
  pose proof (neighbors_short S1 H) as E; split; [exact E|].
  unfold common_neighbors; rewrite E; reflexivity.
Qed.

Lemma common_neighbors_short_witness :
  (Utils.neighbors [7%Z] = []
   /\ common_neighbors Z.eq_dec (@Utils.neighbors Z) [7%Z] [1; 2; 3]%Z = 0%Z)
  /\ (Utils.neighbors (@nil Z) = []
      /\ common_neighbors Z.eq_dec (@Utils.neighbors Z) [] [1; 2; 3]%Z = 0%Z).
Proof.
  split.
  - apply (common_neighbors_short Z.eq_dec [7%Z] [1; 2; 3]%Z); cbn; lia.
  - apply (common_neighbors_short Z.eq_dec [] [1; 2; 3]%Z); cbn; lia.
Defined.

(** C9.  The result is never negative, and for two non-empty sequences of
    lengths [n1] and [n2] it is at most [(n1 - 1) * (n2 - 1)]. *)
Theorem common_neighbors_bounds :
  forall (A : Type) (A_eq_dec : forall x y : A, {x = y} + {x <> y})
         (S1 S2 : list A),
    (0 <= common_neighbors A_eq_dec (@Utils.neighbors A) S1 S2)%Z
    /\ (1 <= length S1 -> 1 <= length S2 ->
        (common_neighbors A_eq_dec (@Utils.neighbors A) S1 S2
         <= (Z.of_nat (length S1) - 1) * (Z.of_nat (length S2) - 1))%Z).
Proof.
  intros A A_eq_dec S1 S2; rewrite common_neighbors_overlap; split; [lia|].
  intros H1 H2.
  pose proof (overlap_le_product A_eq_dec (Utils.neighbors S1) (Utils.neighbors S2)) as B.
  rewrite !neighbors_length in B.
  apply Nat2Z.inj_le in B; rewrite Nat2Z.inj_mul, !Nat2Z.inj_sub in B by lia.
  exact B.
Qed.

Lemma common_neighbors_bounds_witness :
  (common_neighbors Z.eq_dec (@Utils.neighbors Z) [1; 2; 3; 1; 2]%Z [1; 2; 4; 1; 2]%Z
   <= (Z.of_nat (length [1; 2; 3; 1; 2]%Z) - 1)
      * (Z.of_nat (length [1; 2; 4; 1; 2]%Z) - 1))%Z.
Proof.
  apply (proj2 (common_neighbors_bounds Z.eq_dec [1; 2; 3; 1; 2]%Z [1; 2; 4; 1; 2]%Z));
    cbn; lia.
Defined.

(* ================================================================== *)
(** * Part 4: [cosine] in exact arithmetic *)
(* ================================================================== *)

(** Unfolds one reading of [cosine] down to the body of the function. *)
Ltac unfold_cosine := unfold Exact.cosine, F64.cosine, cosine.

Module ExactFacts.
Import Exact.
Local Open Scope R_scope.

(** *** Sums *)

Lemma np_sum_from (l : list R) (acc : R) :
  fold_left Rplus l acc = acc + np_sum 0 Rplus l.
Proof.
  unfold np_sum; revert acc.
  induction l as [| x l IH]; intro acc; cbn [fold_left].
  - lra.
  - rewrite IH, (IH (0 + x)); lra.
Qed.

Lemma np_sum_cons (x : R) (l : list R) :
  np_sum 0 Rplus (x :: l) = x + np_sum 0 Rplus l.
Proof.
  unfold np_sum at 1; cbn [fold_left]; rewrite np_sum_from; lra.
Qed.

Lemma np_sum_scale (k : R) (l : list R) :
  np_sum 0 Rplus (map (fun x => k * x) l) = k * np_sum 0 Rplus l.
Proof.
  induction l as [| x l IH].
  - unfold np_sum; cbn; lra.
  - cbn [map]; rewrite !np_sum_cons, IH; lra.
Qed.

(** *** Sums of squares *)

Lemma sum_squares_nil : sum_squares [] = 0.
Proof. reflexivity. Qed.

Lemma sum_squares_cons (x : R) (v : list R) :
  sum_squares (x :: v) = x * x + sum_squares v.
Proof. unfold sum_squares; cbn [np_square map]; apply np_sum_cons. Qed.

Lemma sum_squares_nonneg (v : list R) : 0 <= sum_squares v.
Proof.
  induction v as [| x v IH].
  - rewrite sum_squares_nil; lra.
  - rewrite sum_squares_cons; pose proof (Rle_0_sqr x) as Hx; unfold Rsqr in Hx; lra.
Qed.

(** The sum of squares vanishes exactly on the all-zero vector. *)
Lemma sum_squares_zero_iff (v : list R) :
  sum_squares v = 0 <-> Forall (fun x => x = 0) v.
Proof.
  induction v as [| x v IH].
  - split; [constructor | reflexivity].
  - rewrite sum_squares_cons.
    pose proof (sum_squares_nonneg v) as Hv.
    pose proof (Rle_0_sqr x) as Hx; unfold Rsqr in Hx.
    split.
    + intro H.
      assert (Hxx : x * x = 0) by lra.
      assert (Hs : sum_squares v = 0) by lra.
      constructor; [| apply IH; exact Hs].
      destruct (Rmult_integral _ _ Hxx); assumption.
    + intro H; inversion H as [| ? ? Hx0 Hv0]; subst.
      apply IH in Hv0; rewrite Hv0; lra.
Qed.

Lemma nonzero_sum_squares_pos (v : list R) : nonzero v -> 0 < sum_squares v.
Proof.
  intro H.
  destruct (Rle_lt_or_eq_dec _ _ (sum_squares_nonneg v)) as [P | E]; [exact P|].
  exfalso; symmetry in E; apply sum_squares_zero_iff in E.
  unfold nonzero in H; apply Exists_exists in H; destruct H as [x [I N]].
  rewrite Forall_forall in E; auto.
Qed.

Lemma sum_squares_scale (c : R) (v : list R) :
  sum_squares (scale c v) = c * c * sum_squares v.
Proof.
  induction v as [| x v IH].
  - rewrite sum_squares_nil; cbn [scale map]; rewrite sum_squares_nil; lra.
  - cbn [scale map]; fold (scale c v); rewrite !sum_squares_cons, IH; lra.
Qed.

(** *** The comparison with zero *)

Lemma eqb_true_iff (x y : R) : eqb x y = true <-> x = y.
Proof.
  unfold eqb; destruct (Req_dec_T x y); split; intro; congruence.
Qed.

Lemma eqb_false_iff (x y : R) : eqb x y = false <-> x <> y.
Proof.
  unfold eqb; destruct (Req_dec_T x y); split; intro; congruence.
Qed.

(** *** The dot product *)

Lemma products_cons (x y : R) (a b : list R) :
  products (x :: a) (y :: b) = x * y + products a b.
Proof. unfold products; cbn [combine map fst snd]; apply np_sum_cons. Qed.

Lemma products_nil_l (b : list R) : products [] b = 0.
Proof. reflexivity. Qed.

Lemma products_nil_r (a : list R) : products a [] = 0.
Proof. destruct a; reflexivity. Qed.

Lemma dot_eq (a b : list R) :
  dot a b = if Nat.eqb (length a) (length b) then Some (products a b) else None.
Proof. reflexivity. Qed.

Lemma dot_same_length (a b : list R) :
  length a = length b -> dot a b = Some (products a b).
Proof. intro H; rewrite dot_eq, H, Nat.eqb_refl; reflexivity. Qed.

Lemma products_self (v : list R) : products v v = sum_squares v.
Proof.
  induction v as [| x v IH]; [reflexivity|].
  rewrite products_cons, sum_squares_cons, IH; reflexivity.
Qed.

Lemma products_scale (c : R) (a b : list R) :
  products (scale c a) b = c * products a b.
Proof.
  revert b; induction a as [| x a IH]; intro b.
  - cbn [scale map]; rewrite !products_nil_l; lra.
  - destruct b as [| y b].
    + rewrite !products_nil_r; lra.
    + cbn [scale map]; fold (scale c a); rewrite !products_cons, IH; lra.
Qed.

(** *** The Cauchy-Schwarz inequality *)

Lemma cross_term_bound (x y d sa sb : R) :
  0 <= sa -> 0 <= sb -> d * d <= sa * sb ->
  2 * (x * y * d) <= x * x * sb + y * y * sa.
Proof.
  intros Ha Hb Hd.
  destruct (Rle_lt_or_eq_dec _ _ Ha) as [P | E].
  - apply (Rmult_le_reg_l sa); [exact P|].
    pose proof (Rle_0_sqr (x * d - y * sa)) as S1; unfold Rsqr in S1.
    pose proof (Rle_0_sqr x) as S2; unfold Rsqr in S2.
    assert (S3 : 0 <= x * x * (sa * sb - d * d))
      by (apply Rmult_le_pos; lra).
    nra.
  - subst sa.
    assert (D0 : d = 0).
    { pose proof (Rle_0_sqr d) as S; unfold Rsqr in S.
      assert (Hdd : d * d = 0) by lra.
      destruct (Rmult_integral _ _ Hdd); assumption. }
    subst d; pose proof (Rle_0_sqr x) as S2; unfold Rsqr in S2; nra.
Qed.

Lemma cauchy_schwarz (a b : list R) :
  products a b * products a b <= sum_squares a * sum_squares b.
Proof.
  revert b; induction a as [| x a IH]; intro b.
  - rewrite products_nil_l, sum_squares_nil; lra.
  - destruct b as [| y b].
    + rewrite products_nil_r, sum_squares_nil; lra.
    + rewrite products_cons, !sum_squares_cons.
      pose proof (IH b) as H.
      pose proof (sum_squares_nonneg a) as Ha.
      pose proof (sum_squares_nonneg b) as Hb.
      pose proof (cross_term_bound x y Ha Hb H) as C.
      nra.
Qed.

(** *** The power [x ** -0.5] *)

Lemma pow_neg_half_sqrt (x : R) : 0 < x -> pow_neg_half x = / R_sqrt.sqrt x.
Proof.
  intro H; unfold pow_neg_half; rewrite Rpower_Ropp, Rpower_sqrt by exact H.
  reflexivity.
Qed.

(** *** The two branches of [cosine] *)

Lemma cosine_fallback (a b : list R) :
  sum_squares a = 0 \/ sum_squares b = 0 -> cosine a b = Some 0.
Proof.
  intro H; unfold_cosine.
  fold (sum_squares a) (sum_squares b).
  destruct H as [H | H]; apply eqb_true_iff in H; rewrite H;
    [| rewrite orb_true_r]; reflexivity.
Qed.

Lemma cosine_general (a b : list R) :
  sum_squares a <> 0 -> sum_squares b <> 0 ->
  cosine a b
  = match dot a b with
    | Some d => Some (d * pow_neg_half (sum_squares a * sum_squares b))
    | None => None
    end.
Proof.
  intros Ha Hb; unfold_cosine.
  fold (sum_squares a) (sum_squares b) (dot a b).
  apply eqb_false_iff in Ha, Hb; rewrite Ha, Hb; reflexivity.
Qed.

Lemma sqrt_product_pos (sa sb : R) :
  0 < sa -> 0 < sb ->
  0 < R_sqrt.sqrt (sa * sb)
  /\ R_sqrt.sqrt (sa * sb) * R_sqrt.sqrt (sa * sb) = sa * sb.
Proof.
  intros Ha Hb.
  assert (P : 0 < sa * sb) by (apply Rmult_lt_0_compat; assumption).
  split; [apply sqrt_lt_R0; exact P | apply sqrt_sqrt; lra].
Qed.

(** ** The claims about [cosine], in exact arithmetic *)

(** C3, as amended.  Computed in exact real arithmetic, [cosine(a, b)] of two
    vectors of equal dimension is a number of the closed interval [-1, 1]. *)
Theorem cosine_in_unit_interval (a b : list R) :
  length a = length b ->
  exists r, cosine a b = Some r /\ -1 <= r <= 1.
Proof.
  intro L.
  destruct (Req_dec_T (sum_squares a) 0) as [Za | Na].
  { exists 0; split; [apply cosine_fallback; auto | lra]. }
  destruct (Req_dec_T (sum_squares b) 0) as [Zb | Nb].
  { exists 0; split; [apply cosine_fallback; auto | lra]. }
  rewrite (cosine_general a b Na Nb), (dot_same_length a b L).
  eexists; split; [reflexivity|].
  pose proof (sum_squares_nonneg a) as Ha.
  pose proof (sum_squares_nonneg b) as Hb.
  destruct (sqrt_product_pos (sa := sum_squares a) (sb := sum_squares b))
    as [K KK]; [lra | lra |].
  rewrite pow_neg_half_sqrt by (apply Rmult_lt_0_compat; lra).
  pose proof (cauchy_schwarz a b) as CS.
  set (p := products a b) in *.
  set (k := R_sqrt.sqrt (sum_squares a * sum_squares b)) in *.
  assert (Pk : - k <= p <= k) by nra.
  assert (E : p * / k * k = p) by (field; lra).
  split.
  - apply (Rmult_le_reg_r k); [exact K | rewrite E; lra].
  - apply (Rmult_le_reg_r k); [exact K | rewrite E; lra].
Qed.

Lemma cosine_in_unit_interval_witness :
  exists r, cosine [1; 2] [3; -1] = Some r /\ -1 <= r <= 1.
Proof.
  apply (cosine_in_unit_interval [1; 2] [3; -1]); reflexivity.
Defined.

(** C4.  For two non-zero vectors of equal dimension, the expression
    [cosine] computes, [dot(a,b) * (sumSqA * sumSqB) ** -0.5], is the quotient
    [dot(a,b) / (|a| * |b|)] of the reference definition. *)
Theorem cosine_eq_quotient (a b : list R) :
  length a = length b -> nonzero a -> nonzero b ->
  cosine a b
  = Some (products a b * pow_neg_half (sum_squares a * sum_squares b))
  /\ products a b * pow_neg_half (sum_squares a * sum_squares b)
     = products a b / (norm a * norm b)
  /\ cosine a b = quotient_cosine a b.
Proof.
  intros L Ha Hb.
  pose proof (nonzero_sum_squares_pos Ha) as Pa.
  pose proof (nonzero_sum_squares_pos Hb) as Pb.
  assert (C : cosine a b
              = Some (products a b * pow_neg_half (sum_squares a * sum_squares b))).
  { rewrite cosine_general, (dot_same_length a b L) by lra; reflexivity. }
  assert (Q : products a b * pow_neg_half (sum_squares a * sum_squares b)
              = products a b / (norm a * norm b)).
  { rewrite pow_neg_half_sqrt by (apply Rmult_lt_0_compat; lra).
    unfold norm; rewrite sqrt_mult by lra; reflexivity. }
  repeat split; [exact C | exact Q |].
  unfold quotient_cosine; rewrite (dot_same_length a b L), C, Q; reflexivity.
Qed.

Lemma cosine_eq_quotient_witness :
  cosine [1; 2] [3; -1] = quotient_cosine [1; 2] [3; -1].
Proof.
  apply (cosine_eq_quotient (a := [1; 2]) (b := [3; -1])).
  - reflexivity.
  - apply Exists_cons_hd; lra.
  - apply Exists_cons_hd; lra.
Defined.

(** C8, as amended.  Computed in exact real arithmetic, [cosine(v, v)] is 1
    for every non-zero vector [v]. *)
Theorem cosine_self (v : list R) :
  nonzero v -> cosine v v = Some 1.
Proof.
  intro H; pose proof (nonzero_sum_squares_pos H) as P.
  rewrite cosine_general, (dot_same_length v v eq_refl), products_self by lra.
  rewrite pow_neg_half_sqrt by (apply Rmult_lt_0_compat; lra).
  rewrite sqrt_square by lra.
  f_equal; field; lra.
Qed.

Lemma cosine_self_witness : cosine [3; 4] [3; 4] = Some 1.
Proof.
  apply (cosine_self (v := [3; 4])); apply Exists_cons_hd; lra.
Defined.

(** C10.  In exact arithmetic, scaling the first vector by a positive factor
    does not change the result, in the fallback branch and in the general one
    (and on vectors of different dimension both calls fail alike). *)
Theorem cosine_scale_invariant (c : R) (a b : list R) :
  0 < c -> cosine (scale c a) b = cosine a b.
Proof.
  intro Hc.
  pose proof (sum_squares_scale c a) as S.
  destruct (Req_dec_T (sum_squares a) 0) as [Za | Na].
  { rewrite !cosine_fallback; [reflexivity | auto | left; rewrite S, Za; lra]. }
  destruct (Req_dec_T (sum_squares b) 0) as [Zb | Nb].
  { rewrite !cosine_fallback; auto. }
  pose proof (sum_squares_nonneg a) as Ha.
  pose proof (sum_squares_nonneg b) as Hb.
  assert (Pc : 0 < c * c) by (apply Rmult_lt_0_compat; exact Hc).
  assert (Pab : 0 < sum_squares a * sum_squares b)
    by (apply Rmult_lt_0_compat; lra).
  assert (Nsa : sum_squares (scale c a) <> 0).
  { rewrite S; apply Rmult_integral_contrapositive_currified; lra. }
  rewrite !cosine_general by assumption.
  rewrite !dot_eq; unfold scale at 1; rewrite length_map.
  destruct (Nat.eqb (length a) (length b)); [| reflexivity].
  rewrite products_scale, S.
  rewrite !pow_neg_half_sqrt;
    [| exact Pab | replace (c * c * sum_squares a * sum_squares b)
                     with (c * c * (sum_squares a * sum_squares b)) by ring;
                   apply Rmult_lt_0_compat; assumption].
  replace (c * c * sum_squares a * sum_squares b)
    with (c * c * (sum_squares a * sum_squares b)) by ring.
  rewrite sqrt_mult, sqrt_square by lra.
  pose proof (sqrt_lt_R0 _ Pab) as K.
  f_equal; field; lra.
Qed.

Lemma cosine_scale_invariant_witness :
  cosine (scale 2 [1; 2]) [3; -1] = cosine [1; 2] [3; -1].
Proof.
  apply (cosine_scale_invariant (c := 2) [1; 2] [3; -1]); lra.
Defined.

End ExactFacts.

(* ================================================================== *)
(** * Part 5: [cosine] in binary64 *)
(* ================================================================== *)

Module F64Facts.
Import F64.

(** *** Zeros *)

(** A number that compares equal to 0.0 is one of the two zeros. *)
Lemma eqb_zero_cases (x : float) :
  PrimFloat.eqb x 0%float = true -> x = 0%float \/ x = (-0)%float.
Proof.
  intro H; rewrite eqb_spec in H.
  rewrite <- (SF2Prim_Prim2SF x).
  destruct (Prim2SF x) as [s | s | | s m e]; try discriminate H.
  - destruct s; [right | left]; reflexivity.
  - destruct s; discriminate H.
  - destruct s; discriminate H.
Qed.

Lemma square_of_zero (x : float) :
  PrimFloat.eqb x 0%float = true -> PrimFloat.mul x x = 0%float.
Proof.
  intro H; destruct (eqb_zero_cases H); subst; reflexivity.
Qed.

(** The squares of an all-zero vector are all [+0]. *)
Lemma np_square_all_zero (v : list float) :
  all_zero v = true ->
  np_square PrimFloat.mul v = map (fun _ => 0%float) v.
Proof.
  induction v as [| x v IH]; [reflexivity|].
  unfold all_zero; cbn [forallb np_square map].
  intro H; apply andb_prop in H; destruct H as [Hx Hv].
  rewrite (square_of_zero Hx); f_equal; apply IH; exact Hv.
Qed.

Lemma fold_add_zeros (B : Type) (v : list B) :
  fold_left PrimFloat.add (map (fun _ => 0%float) v) 0%float = 0%float.
Proof.
  induction v as [| x v IH]; [reflexivity|].
  cbn [map fold_left].
  change (PrimFloat.add 0%float 0%float) with 0%float; exact IH.
Qed.

Lemma sum_squares_all_zero (v : list float) :
  all_zero v = true -> sum_squares v = 0%float.
Proof.
  intro H; unfold sum_squares, np_sum.
  rewrite (np_square_all_zero v H); apply fold_add_zeros.
Qed.

(** *** The fallback branch *)

Lemma cosine_guard_fires (pow_finite : float -> float) (a b : list float) :
  PrimFloat.eqb (sum_squares a) 0%float = true
  \/ PrimFloat.eqb (sum_squares b) 0%float = true ->
  cosine pow_finite a b = Some 0%float.
Proof.
  intro H; unfold_cosine.
  fold (sum_squares a) (sum_squares b).
  destruct H as [H | H]; rewrite H; [| rewrite orb_true_r]; reflexivity.
Qed.

(** ** The claims about [cosine], in binary64 *)

(** *** The general branch *)

Lemma cosine_with_guard_fires (power : float -> float) (a b : list float) :
  PrimFloat.eqb (sum_squares a) 0%float = true
  \/ PrimFloat.eqb (sum_squares b) 0%float = true ->
  cosine_with power a b = Some 0%float.
Proof.
  intro H; unfold cosine_with; unfold_cosine.
  fold (sum_squares a) (sum_squares b).
  destruct H as [H | H]; rewrite H; [| rewrite orb_true_r]; reflexivity.
Qed.

Lemma cosine_with_guard_passes (power : float -> float) (a b : list float) :
  PrimFloat.eqb (sum_squares a) 0%float = false ->
  PrimFloat.eqb (sum_squares b) 0%float = false ->
  cosine_with power a b
  = match dot a b with
    | Some d =>
        Some (PrimFloat.mul d (power (PrimFloat.mul (sum_squares a) (sum_squares b))))
    | None => None
    end.
Proof.
  intros Ha Hb; unfold cosine_with; unfold_cosine.
  fold (sum_squares a) (sum_squares b) (dot a b).
  rewrite Ha, Hb; reflexivity.
Qed.

(** A product with NaN is NaN. *)
Lemma mul_nan_r (x : float) : PrimFloat.mul x nan = nan.
Proof.
  apply Prim2SF_inj; rewrite mul_spec.
  change (Prim2SF nan) with S754_nan.
  destruct (Prim2SF x); reflexivity.
Qed.

Lemma nan_is_not_zero : Some nan <> Some 0%float.
Proof.
  intro H.
  assert (E : PrimFloat.is_nan nan = PrimFloat.is_nan 0%float)
    by exact (f_equal (fun o => match o with
                                | Some x => PrimFloat.is_nan x
                                | None => false
                                end) H).
  vm_compute in E; discriminate E.
Qed.

(** C2, as amended.  When the sum of squares of [a] or of [b] compares equal
    to 0.0, [cosine(a, b)] is 0.0, whatever the dimensions and whatever
    function stands in the place of the power step, which is not performed.
    The test is an exact comparison with 0.0 and nothing wider: when neither
    sum of squares compares equal to 0.0, [cosine] returns the general
    expression [dot(a,b) * (sumSqA * sumSqB) ** -0.5] (or raises, on a
    mismatch of dimensions), and the result is 0.0 independently of the power
    step only when one of the sums of squares compares equal to 0.0.  Every
    all-zero vector has sum of squares 0.0, [cosine([0,0,0], [1,2,3]) == 0.0],
    and a vector whose sum of squares is [2^-1000] goes through the power
    step. *)
Theorem cosine_zero_fallback (pow_finite : float -> float) :
  (forall a b : list float,
      PrimFloat.eqb (sum_squares a) 0%float = true
      \/ PrimFloat.eqb (sum_squares b) 0%float = true ->
      cosine pow_finite a b = Some 0%float)
  /\ (forall a b : list float,
         PrimFloat.eqb (sum_squares a) 0%float = false ->
         PrimFloat.eqb (sum_squares b) 0%float = false ->
         cosine pow_finite a b
         = match dot a b with
           | Some d =>
               Some (PrimFloat.mul d
                       (pow_neg_half pow_finite
                          (PrimFloat.mul (sum_squares a) (sum_squares b))))
           | None => None
           end)
  /\ (forall a b : list float,
         (forall power : float -> float, cosine_with power a b = Some 0%float)
         <-> PrimFloat.eqb (sum_squares a) 0%float = true
             \/ PrimFloat.eqb (sum_squares b) 0%float = true)
  /\ (forall v : list float,
         all_zero v = true -> PrimFloat.eqb (sum_squares v) 0%float = true)
  /\ cosine pow_finite [0; 0; 0]%float [1; 2; 3]%float = Some 0%float
  /\ cosine pow_finite [0x1p-500]%float [1]%float
     = Some (PrimFloat.mul 0x1p-500%float (pow_finite 0x1p-1000%float)).
Proof.
  split; [intros a b; apply cosine_guard_fires|].
  split; [intros a b; apply (cosine_with_guard_passes (pow_neg_half pow_finite))|].
  split.
  { intros a b; split; [| intros H power; apply cosine_with_guard_fires; exact H].
    intro H.
    destruct (PrimFloat.eqb (sum_squares a) 0%float) eqn:Ha; [left; reflexivity|].
    destruct (PrimFloat.eqb (sum_squares b) 0%float) eqn:Hb; [right; reflexivity|].
    exfalso; specialize (H (fun _ => nan)).
    rewrite (cosine_with_guard_passes (fun _ => nan) a b Ha Hb) in H.
    destruct (dot a b) as [d |]; [| discriminate H].
    rewrite mul_nan_r in H; exact (nan_is_not_zero H). }
  split; [intros v H; rewrite (sum_squares_all_zero v H); reflexivity|].
  split; reflexivity.
Qed.

Lemma cosine_zero_fallback_witness :
  cosine (fun x => PrimFloat.div 1%float (PrimFloat.sqrt x))
    [0; 0]%float [1; 2; 3]%float = Some 0%float
  /\ cosine (fun x => PrimFloat.div 1%float (PrimFloat.sqrt x))
       [0x1p-530]%float [1]%float
     = match dot [0x1p-530]%float [1]%float with
       | Some d =>
           Some (PrimFloat.mul d
                   (pow_neg_half (fun x => PrimFloat.div 1%float (PrimFloat.sqrt x))
                      (PrimFloat.mul (sum_squares [0x1p-530]%float)
                                     (sum_squares [1]%float))))
       | None => None
       end.
Proof.
  split.
  - apply (proj1 (cosine_zero_fallback
                    (fun x => PrimFloat.div 1%float (PrimFloat.sqrt x)))).
    left; reflexivity.
  - apply (proj1 (proj2 (cosine_zero_fallback
                           (fun x => PrimFloat.div 1%float (PrimFloat.sqrt x)))));
      reflexivity.
Defined.

(** C2, the part that fails: a sum of squares equal to 0.0 does not make the
    vector all-zero.  The vector [[2^-700]] is not zero, and its square
    underflows to 0.0. *)
Lemma sum_squares_zero_of_nonzero_vector :
  PrimFloat.eqb (sum_squares [tiny]) 0%float = true
  /\ all_zero [tiny] = false.
Proof. split; reflexivity. Qed.

(** C3 fails in binary64: for [a = b = [2^-300]] the product of the two sums
    of squares underflows to 0.0, its power [-0.5] is [+inf], and [cosine]
    returns [+inf]; for [a = b = [2^600]] the sums of squares overflow and
    [cosine] returns NaN.  Neither lies in [-1, 1]. *)
Lemma cosine_outside_unit_interval :
  length [small] = length [small]
  /\ (forall pow_finite, cosine pow_finite [small] [small] = Some infinity)
  /\ in_unit_interval infinity = false
  /\ (forall pow_finite, cosine pow_finite [huge] [huge] = Some nan)
  /\ in_unit_interval nan = false.
Proof. repeat split; reflexivity. Qed.

(** C4 fails in binary64: for [a = b = [2^-300]] the expression [cosine]
    computes is [+inf] while the naive quotient is 1.0. *)
Lemma cosine_differs_from_quotient :
  all_zero [small] = false
  /\ (forall pow_finite, cosine pow_finite [small] [small] = Some infinity)
  /\ quotient_cosine [small] [small] = Some 1%float
  /\ PrimFloat.eqb infinity 1%float = false.
Proof. repeat split; reflexivity. Qed.

(** C8 fails in binary64: the vector [[2^-700]] is not zero, its square
    underflows to 0.0, and [cosine(v, v)] takes the fallback and returns 0.0,
    not 1.0. *)
Lemma cosine_self_not_one :
  all_zero [tiny] = false
  /\ (forall pow_finite, cosine pow_finite [tiny] [tiny] = Some 0%float)
  /\ PrimFloat.eqb 0%float 1%float = false.
Proof. repeat split; reflexivity. Qed.

End F64Facts.

(* ================================================================== *)
(** * Part 6: further properties of [common_neighbors] *)
(* ================================================================== *)

Lemma cross_term_bound_Z (x y d sa sb : Z) :
  (0 <= sa -> 0 <= sb -> d * d <= sa * sb ->
   2 * (x * y * d) <= x * x * sb + y * y * sa)%Z.
Proof.
  intros Ha Hb Hd.
  destruct (Z.eq_dec sa 0) as [E | N].
  - subst sa; assert (d = 0)%Z by nia; subst d; nia.
  - assert (S1 : (0 <= (x * d - y * sa) * (x * d - y * sa))%Z)
      by apply Z.square_nonneg.
    assert (S3 : (0 <= x * x * (sa * sb - d * d))%Z)
      by (apply Z.mul_nonneg_nonneg; [apply Z.square_nonneg | lia]).
    assert (K : (0 <= sa * (x * x * sb + y * y * sa - 2 * (x * y * d)))%Z).
    { replace (sa * (x * x * sb + y * y * sa - 2 * (x * y * d)))%Z
        with (x * x * (sa * sb - d * d) + (x * d - y * sa) * (x * d - y * sa))%Z
        by ring.
      lia. }
    nia.
Qed.

(** The Cauchy-Schwarz inequality for two families of naturals over a list. *)
Lemma cauchy_schwarz_nat (B : Type) (u v : B -> nat) (l : list B) :
  list_sum (map (fun x => u x * v x) l) * list_sum (map (fun x => u x * v x) l)
  <= list_sum (map (fun x => u x * u x) l) * list_sum (map (fun x => v x * v x) l).
Proof.
  induction l as [| x l IH]; [cbn; lia|].
  cbn [map]; rewrite !list_sum_cons.
  set (d := list_sum (map (fun x => u x * v x) l)) in *.
  set (sa := list_sum (map (fun x => u x * u x) l)) in *.
  set (sb := list_sum (map (fun x => v x * v x) l)) in *.
  pose proof (@cross_term_bound_Z (Z.of_nat (u x)) (Z.of_nat (v x)) (Z.of_nat d)
                (Z.of_nat sa) (Z.of_nat sb)) as C.
  nia.
Qed.

Section CommonNeighborsMore.
Variable A : Type.
Variable A_eq_dec : forall x y : A, {x = y} + {x <> y}.

Local Abbreviation multiplicity := (multiplicity A_eq_dec).
Local Abbreviation overlap := (overlap A_eq_dec).
Local Abbreviation pair_dec := (pair_eq_dec A_eq_dec).

Lemma list_sum_zeros (B : Type) (l : list B) : list_sum (map (fun _ => 0) l) = 0.
Proof. induction l as [| x l IH]; [reflexivity | cbn [map]; rewrite list_sum_cons, IH; reflexivity]. Qed.

(** A sum over a list of pairs, taken over any duplicate-free list that
    covers it. *)
Lemma sum_over_cover (f : A * A -> nat) (ps D : list (A * A)) :
  NoDup D -> incl ps D ->
  list_sum (map f ps) = list_sum (map (fun d => multiplicity ps d * f d) D).
Proof.
  intros ND; induction ps as [| p ps IH]; intro I.
  - cbn [map]; symmetry; apply list_sum_zeros.
  - cbn [map]; rewrite list_sum_cons, (weighted_sum_cons A_eq_dec p ps D f).
    rewrite <- IH by (intros q Hq; apply I; right; exact Hq).
    assert (M : multiplicity D p = 1).
    { apply NoDup_count_occ'; [exact ND | apply I; left; reflexivity]. }
    rewrite M; lia.
Qed.

Lemma overlap_over_cover (ps qs D : list (A * A)) :
  NoDup D -> incl ps D ->
  overlap ps qs = list_sum (map (fun d => multiplicity ps d * multiplicity qs d) D).
Proof. intros ND I; unfold_overlap; apply sum_over_cover; assumption. Qed.

Lemma overlap_cauchy_schwarz (ps qs : list (A * A)) :
  overlap ps qs * overlap ps qs <= overlap ps ps * overlap qs qs.
Proof.
  set (D := nodup pair_dec (ps ++ qs)).
  assert (ND : NoDup D) by apply NoDup_nodup.
  assert (I1 : incl ps D)
    by (intros p Hp; apply nodup_In, in_or_app; left; exact Hp).
  assert (I2 : incl qs D)
    by (intros p Hp; apply nodup_In, in_or_app; right; exact Hp).
  rewrite (@overlap_over_cover ps qs D ND I1), (@overlap_over_cover ps ps D ND I1),
    (@overlap_over_cover qs qs D ND I2).
  apply cauchy_schwarz_nat.
Qed.

Lemma multiplicity_zero_iff (qs : list (A * A)) (p : A * A) :
  multiplicity qs p = 0 <-> ~ In p qs.
Proof.
  unfold_multiplicity; split; apply count_occ_not_In.
Qed.

Lemma overlap_zero_iff (ps qs : list (A * A)) :
  overlap ps qs = 0 <-> (forall p, In p ps -> ~ In p qs).
Proof.
  unfold_overlap; induction ps as [| p ps IH].
  - split; [intros _ p [] | reflexivity].
  - cbn [map]; rewrite list_sum_cons; split.
    + intros H q [<- | Hq].
      * apply multiplicity_zero_iff; lia.
      * apply IH; [lia | exact Hq].
    + intro H.
      assert (M : multiplicity qs p = 0)
        by (apply multiplicity_zero_iff, H; left; reflexivity).
      rewrite M; apply IH; intros q Hq; apply H; right; exact Hq.
Qed.

End CommonNeighborsMore.

(** ** Further properties of [common_neighbors] *)

(** X6.  The result is 0 exactly when no pair that [utils.neighbors] yields
    for the first list is among the pairs it yields for the second. *)
Theorem common_neighbors_zero_iff :
  forall (A : Type) (A_eq_dec : forall x y : A, {x = y} + {x <> y})
         (utils_neighbors : list A -> list (A * A)) (S1 S2 : list A),
    common_neighbors A_eq_dec utils_neighbors S1 S2 = 0%Z
    <-> (forall p, In p (utils_neighbors S1) -> ~ In p (utils_neighbors S2)).
Proof.
  intros; rewrite common_neighbors_overlap, <- (overlap_zero_iff A_eq_dec).
  split; intro H; [apply Nat2Z.inj; exact H | rewrite H; reflexivity].
Qed.

(** X7.  The count is an inner product of the two multiplicity vectors, and
    obeys the Cauchy-Schwarz inequality: the square of
    [common_neighbors(S1, S2)] is at most
    [common_neighbors(S1, S1) * common_neighbors(S2, S2)]. *)
Theorem common_neighbors_cauchy_schwarz :
  forall (A : Type) (A_eq_dec : forall x y : A, {x = y} + {x <> y})
         (utils_neighbors : list A -> list (A * A)) (S1 S2 : list A),
    (common_neighbors A_eq_dec utils_neighbors S1 S2
     * common_neighbors A_eq_dec utils_neighbors S1 S2
     <= common_neighbors A_eq_dec utils_neighbors S1 S1
        * common_neighbors A_eq_dec utils_neighbors S2 S2)%Z.
Proof.
  intros; rewrite !common_neighbors_overlap, <- !Nat2Z.inj_mul.
  apply Nat2Z.inj_le, overlap_cauchy_schwarz.
Qed.

(* ================================================================== *)
(** * Part 7: further properties of [cosine] *)
(* ================================================================== *)

Section CosineGeneric.
Variable F : Type.
Variable zero : F.
Variables add mul : F -> F -> F.
Variable eqb : F -> F -> bool.
Variable pow_neg_half : F -> F.

Local Abbreviation sum_sq := (fun v => np_sum zero add (np_square mul v)).

(** Whatever the arithmetic: [cosine] raises exactly when the lengths differ
    and neither sum of squares compares equal to zero. *)
Lemma cosine_raises_iff (a b : list F) :
  cosine zero add mul eqb pow_neg_half a b = None
  <-> length a <> length b
      /\ eqb (sum_sq a) zero = false /\ eqb (sum_sq b) zero = false.
Proof.
  unfold cosine, np_dot.
  destruct (eqb (sum_sq a) zero), (eqb (sum_sq b) zero); cbn [orb];
    try (split; [discriminate | intros [_ [? ?]]; discriminate]).
  destruct (Nat.eqb (length a) (length b)) eqn:E.
  - apply Nat.eqb_eq in E; split; [discriminate | intros [N _]; congruence].
  - apply Nat.eqb_neq in E; split; auto.
Qed.

Hypothesis mul_comm : forall x y : F, mul x y = mul y x.

Lemma products_swap (a b : list F) :
  map (fun xy => mul (fst xy) (snd xy)) (combine a b)
  = map (fun xy => mul (fst xy) (snd xy)) (combine b a).
Proof.
  revert b; induction a as [| x a IH]; intros [| y b]; try reflexivity.
  cbn [combine map fst snd]; rewrite IH, (mul_comm x y); reflexivity.
Qed.

Lemma np_dot_swap (a b : list F) :
  np_dot zero add mul a b = np_dot zero add mul b a.
Proof.
  unfold np_dot; rewrite products_swap, (Nat.eqb_sym (length a)); reflexivity.
Qed.

Lemma cosine_swap (a b : list F) :
  cosine zero add mul eqb pow_neg_half a b
  = cosine zero add mul eqb pow_neg_half b a.
Proof.
  unfold cosine.
  rewrite np_dot_swap, (orb_comm (eqb (sum_sq a) zero)), (mul_comm (sum_sq a)).
  reflexivity.
Qed.

End CosineGeneric.

Lemma SFmul_comm (prec emax : Z) (x y : spec_float) :
  SFmul prec emax x y = SFmul prec emax y x.
Proof.
  destruct x as [sx | sx | | sx mx ex], y as [sy | sy | | sy my ey]; cbn [SFmul];
    try reflexivity; try (rewrite (xorb_comm sx sy); reflexivity).
  rewrite (xorb_comm sx sy), (Pos.mul_comm mx my), (Z.add_comm ex ey); reflexivity.
Qed.

(** Multiplication of binary64 numbers is commutative, bit for bit. *)
Lemma float_mul_comm (x y : float) : PrimFloat.mul x y = PrimFloat.mul y x.
Proof.
  apply Prim2SF_inj; rewrite !mul_spec; apply SFmul_comm.
Qed.

(** ** Further properties of [cosine] *)

(** X2.  [cosine] is symmetric in its two arguments, bit for bit in binary64
    (whatever the power step returns on finite arguments) and in exact
    arithmetic, including the calls that raise. *)
Theorem cosine_symmetric :
  (forall (pow_finite : float -> float) (a b : list float),
      F64.cosine pow_finite a b = F64.cosine pow_finite b a)
  /\ (forall a b : list R, Exact.cosine a b = Exact.cosine b a).
Proof.
  split; intros; apply cosine_swap; [exact float_mul_comm | exact Rmult_comm].
Qed.

(** X1.  In binary64, [cosine(a, b)] raises (the [ValueError] of [np.dot])
    exactly when the two lengths differ and neither sum of squares compares
    equal to 0.0: a mismatch of dimensions passes silently, with result 0.0,
    as soon as one of the sums of squares is 0.0. *)
Theorem cosine_raises_on_mismatch :
  forall (pow_finite : float -> float) (a b : list float),
    F64.cosine pow_finite a b = None
    <-> length a <> length b
        /\ PrimFloat.eqb (F64.sum_squares a) 0%float = false
        /\ PrimFloat.eqb (F64.sum_squares b) 0%float = false.
Proof.
  intros; apply cosine_raises_iff.
Qed.

Module ExactMore.
Import Exact.
Import ExactFacts.
Local Open Scope R_scope.

Lemma scale_length (c : R) (a : list R) : length (scale c a) = length a.
Proof. apply length_map. Qed.

(** Scaling the first vector by a non-zero factor multiplies the result by
    the sign of the factor. *)
Lemma cosine_scale_sign (c : R) (a b : list R) :
  c <> 0 ->
  cosine (scale c a) b = option_map (fun r => c / Rabs c * r) (cosine a b).
Proof.
  intro Hc.
  pose proof (sum_squares_scale c a) as S.
  pose proof (Rabs_pos_lt c Hc) as Pabs.
  destruct (Req_dec_T (sum_squares a) 0) as [Za | Na].
  { rewrite !cosine_fallback; [cbn; f_equal; lra | auto | left; rewrite S, Za; lra]. }
  destruct (Req_dec_T (sum_squares b) 0) as [Zb | Nb].
  { rewrite !cosine_fallback; [cbn; f_equal; lra | auto | auto]. }
  pose proof (sum_squares_nonneg a) as Ha.
  pose proof (sum_squares_nonneg b) as Hb.
  assert (Pc : 0 < c * c) by nra.
  assert (Pab : 0 < sum_squares a * sum_squares b)
    by (apply Rmult_lt_0_compat; lra).
  assert (Nsa : sum_squares (scale c a) <> 0) by (rewrite S; nra).
  rewrite !cosine_general by assumption.
  rewrite !dot_eq, scale_length.
  destruct (Nat.eqb (length a) (length b)); [| reflexivity].
  cbn [option_map]; rewrite products_scale, S.
  replace (c * c * sum_squares a * sum_squares b)
    with (Rsqr c * (sum_squares a * sum_squares b)) by (unfold Rsqr; ring).
  rewrite !pow_neg_half_sqrt;
    [| exact Pab | apply Rmult_lt_0_compat; [unfold Rsqr; exact Pc | exact Pab]].
  rewrite sqrt_mult, sqrt_Rsqr_abs by (unfold Rsqr; lra).
  pose proof (sqrt_lt_R0 _ Pab) as K.
  f_equal; field; lra.
Qed.

Lemma cosine_same (v : list R) : nonzero v -> cosine v v = Some 1.
Proof.
  intro H; pose proof (nonzero_sum_squares_pos H) as P.
  rewrite cosine_general, (dot_same_length v v eq_refl), products_self by lra.
  rewrite pow_neg_half_sqrt by (apply Rmult_lt_0_compat; lra).
  rewrite sqrt_square by lra.
  f_equal; field; lra.
Qed.

(** X3.  In exact arithmetic, scaling the first vector by a negative factor
    negates the result (and keeps a raised error). *)
Theorem cosine_negative_scale (c : R) (a b : list R) :
  c < 0 -> cosine (scale c a) b = option_map Ropp (cosine a b).
Proof.
  intro Hc; rewrite cosine_scale_sign by lra.
  rewrite (Rabs_left c Hc).
  destruct (cosine a b) as [r |]; [| reflexivity].
  cbn [option_map]; f_equal; field; lra.
Qed.

Lemma cosine_negative_scale_witness :
  cosine (scale (-2) [1; 2]) [3; -1] = option_map Ropp (cosine [1; 2] [3; -1]).
Proof.
  apply (cosine_negative_scale (c := -2) [1; 2] [3; -1]); lra.
Defined.

(** X4.  In exact arithmetic, the cosine of a non-zero vector with a
    positive multiple of itself is 1, and with a negative multiple -1. *)
Theorem cosine_parallel (c : R) (v : list R) :
  nonzero v ->
  (0 < c -> cosine (scale c v) v = Some 1)
  /\ (c < 0 -> cosine (scale c v) v = Some (-1)).
Proof.
  intro H; split; intro Hc; rewrite cosine_scale_sign, (cosine_same H) by lra;
    cbn [option_map]; f_equal.
  - rewrite (Rabs_right c) by lra; field; lra.
  - rewrite (Rabs_left c Hc); field; lra.
Qed.

Lemma cosine_parallel_witness :
  cosine (scale 2 [3; 4]) [3; 4] = Some 1
  /\ cosine (scale (-2) [3; 4]) [3; 4] = Some (-1).
Proof.
  assert (H : nonzero [3; 4]) by (apply Exists_cons_hd; lra).
  split.
  - apply (proj1 (cosine_parallel 2 H)); lra.
  - apply (proj2 (cosine_parallel (-2) H)); lra.
Defined.

(** X5.  In exact arithmetic, for vectors of equal dimension the result is 0
    exactly when one of the vectors is all-zero or their dot product is 0. *)
Theorem cosine_zero_iff (a b : list R) :
  length a = length b ->
  (cosine a b = Some 0
   <-> Forall (fun x => x = 0) a \/ Forall (fun x => x = 0) b \/ products a b = 0).
Proof.
  intro L; rewrite <- !sum_squares_zero_iff.
  destruct (Req_dec_T (sum_squares a) 0) as [Za | Na].
  { split; [auto | intros _; apply cosine_fallback; auto]. }
  destruct (Req_dec_T (sum_squares b) 0) as [Zb | Nb].
  { split; [auto | intros _; apply cosine_fallback; auto]. }
  rewrite (cosine_general a b Na Nb), (dot_same_length a b L).
  pose proof (sum_squares_nonneg a) as Ha.
  pose proof (sum_squares_nonneg b) as Hb.
  assert (Pab : 0 < sum_squares a * sum_squares b)
    by (apply Rmult_lt_0_compat; lra).
  rewrite pow_neg_half_sqrt by exact Pab.
  pose proof (sqrt_lt_R0 _ Pab) as K.
  assert (Ki : 0 < / R_sqrt.sqrt (sum_squares a * sum_squares b))
    by (apply Rinv_0_lt_compat; exact K).
  split.
  - intro H; injection H as H; right; right.
    destruct (Rmult_integral _ _ H); [assumption | lra].
  - intros [Z | [Z | Z]]; [contradiction | contradiction |].
    rewrite Z; f_equal; lra.
Qed.

Lemma cosine_zero_iff_witness :
  cosine [1; 0] [0; 1] = Some 0
  <-> Forall (fun x => x = 0) [1; 0] \/ Forall (fun x => x = 0) [0; 1]
      \/ products [1; 0] [0; 1] = 0.
Proof.
  apply (cosine_zero_iff [1; 0] [0; 1]); reflexivity.
Defined.

End ExactMore.

(* ================================================================== *)
(** * Part 8: the summation helpers *)
(* ================================================================== *)

Module SumsFacts.
Section WithArithmetic.
Variable F : Type.
Variable zero : F.
Variable add : F -> F -> F.

Local Abbreviation store := (Sums.store F).
Local Abbreviation py_iadd := (Sums.py_iadd zero add).
Local Abbreviation py_add := (Sums.py_add zero add).
Local Abbreviation loop_sum := (Sums.loop_sum zero add).
Local Abbreviation loop_sum_wrap := (Sums.loop_sum_wrap zero add).
Local Abbreviation gen_sum_wrap := (Sums.gen_sum_wrap zero add).
Local Abbreviation inplace_add := (Sums.inplace_add add).
Local Abbreviation broadcast_add := (Sums.broadcast_add add).
Local Abbreviation zip_add := (Sums.zip_add add).
Local Abbreviation loop_total := (Sums.loop_total zero add).
Local Abbreviation gen_total := (Sums.gen_total zero add).

(** *** The store *)

Lemma read_old (s g : store) (r : nat) (arr : list F) :
  nth_error s r = Some arr -> Sums.read r (s ++ g) = Some (arr, s ++ g).
Proof.
  intro H; unfold Sums.read.
  rewrite nth_error_app1 by (apply nth_error_Some; congruence).
  rewrite H; reflexivity.
Qed.

Lemma read_last (s : store) (arr : list F) :
  Sums.read (length s) (s ++ [arr]) = Some (arr, s ++ [arr]).
Proof.
  unfold Sums.read; rewrite nth_error_app2, Nat.sub_diag by lia; reflexivity.
Qed.

Lemma update_last (s : store) (old new : list F) :
  Sums.update (length s) new (s ++ [old]) = s ++ [new].
Proof.
  induction s as [| x s IH]; [reflexivity|].
  cbn [length app Sums.update]; rewrite IH; reflexivity.
Qed.

Lemma write_last (s : store) (old new : list F) :
  Sums.write (length s) new (s ++ [old]) = Some (tt, s ++ [new]).
Proof.
  unfold Sums.write; rewrite length_app; cbn [length].
  replace (Nat.ltb (length s) (length s + 1)) with true
    by (symmetry; apply Nat.ltb_lt; lia).
  rewrite update_last; reflexivity.
Qed.

(** *** The first round *)

Lemma zero_plus_old (s : store) (w : nat) (arr : list F) :
  nth_error s w = Some arr ->
  Sums.zero_plus zero add w s
  = Some (Sums.Ref (length s), s ++ [map (fun x => add zero x) arr]).
Proof.
  intro H; unfold Sums.zero_plus, Sums.bind, Sums.read, Sums.alloc, Sums.ret.
  rewrite H; reflexivity.
Qed.

(** *** [+=] on the array of the running sum *)

Lemma py_iadd_last (s : store) (acc : list F) (w : nat) (y : list F) :
  nth_error s w = Some y ->
  py_iadd (Sums.Ref (length s)) w (s ++ [acc])
  = match inplace_add acc y with
    | Some z => Some (Sums.Ref (length s), s ++ [z])
    | None => None
    end.
Proof.
  intro H; unfold Sums.py_iadd, Sums.bind.
  rewrite read_last, (read_old s [acc] w H).
  unfold Sums.raise_or; destruct (inplace_add acc y) as [z |]; [| reflexivity].
  rewrite write_last; reflexivity.
Qed.

Lemma loop_from_ref (s : store) (ws : list nat) (arrs : list (list F)) :
  Sums.deref s ws = Some arrs ->
  forall acc : list F,
    Sums.for_each py_iadd ws (Sums.Ref (length s)) (s ++ [acc])
    = match Sums.fold_arrays inplace_add arrs acc with
      | Some z => Some (Sums.Ref (length s), s ++ [z])
      | None => None
      end.
Proof.
  revert arrs; induction ws as [| w ws IH]; intros arrs D acc.
  - cbn in D; injection D as <-; reflexivity.
  - cbn [Sums.deref] in D.
    destruct (nth_error s w) as [y |] eqn:Hw; [| discriminate].
    destruct (Sums.deref s ws) as [rest |] eqn:Hr; [| discriminate].
    injection D as <-.
    cbn [Sums.for_each Sums.fold_arrays]; unfold Sums.bind at 1.
    rewrite (py_iadd_last s acc w Hw).
    destruct (inplace_add acc y) as [z |]; [| reflexivity].
    apply (IH rest eq_refl).
Qed.

Lemma loop_sum_nil (s : store) : loop_sum [] s = Some (Sums.PyZero, s).
Proof. reflexivity. Qed.

(** With references to arrays of the store, the loop computes what
    [loop_total] computes from the contents the arrays had at the call, and
    leaves it in one new array. *)
Lemma loop_sum_total (s : store) (w : nat) (ws : list nat)
    (first : list F) (rest : list (list F)) :
  Sums.deref s (w :: ws) = Some (first :: rest) ->
  loop_sum (w :: ws) s
  = match loop_total first rest with
    | Some z => Some (Sums.Ref (length s), s ++ [z])
    | None => None
    end.
Proof.
  intro D; cbn [Sums.deref] in D.
  destruct (nth_error s w) as [y |] eqn:Hw; [| discriminate].
  destruct (Sums.deref s ws) as [tl |] eqn:Hr; [| discriminate].
  injection D as <- <-.
  unfold Sums.loop_sum; cbn [Sums.for_each]; unfold Sums.bind at 1.
  cbn [Sums.py_iadd]; rewrite (zero_plus_old s w Hw).
  apply (loop_from_ref s ws Hr).
Qed.

(** *** Shapes *)

Lemma zip_add_length (x y : list F) :
  length x = length y -> length (zip_add x y) = length x.
Proof.
  intro H; unfold Sums.zip_add; rewrite length_map, length_combine; lia.
Qed.

Lemma inplace_add_same_length (x y : list F) :
  length y = length x -> inplace_add x y = Some (zip_add x y).
Proof.
  intro H; unfold Sums.inplace_add; rewrite <- H, Nat.eqb_refl; reflexivity.
Qed.

Lemma inplace_add_length (x y z : list F) :
  inplace_add x y = Some z -> length z = length x.
Proof.
  unfold Sums.inplace_add.
  destruct (Nat.eqb (length x) (length y)) eqn:E.
  - apply Nat.eqb_eq in E; intro H; injection H as <-.
    apply zip_add_length; exact E.
  - destruct y as [| y0 [| y1 y]]; try discriminate.
    intro H; injection H as <-; apply length_map.
Qed.

Lemma inplace_add_none (x y : list F) :
  inplace_add x y = None <-> length y <> length x /\ length y <> 1.
Proof.
  unfold Sums.inplace_add.
  destruct (Nat.eqb (length x) (length y)) eqn:E.
  - apply Nat.eqb_eq in E; split; [discriminate | intros [N _]; congruence].
  - apply Nat.eqb_neq in E.
    destruct y as [| y0 [| y1 y]]; cbn [length] in *.
    + split; [intros _; split; [congruence | lia] | reflexivity].
    + split; [discriminate | intros [_ N]; congruence].
    + split; [intros _; split; [congruence | lia] | reflexivity].
Qed.

Lemma fold_inplace_none (rest : list (list F)) (acc : list F) :
  Sums.fold_arrays inplace_add rest acc = None
  <-> Exists (fun y => length y <> length acc /\ length y <> 1) rest.
Proof.
  revert acc; induction rest as [| y rest IH]; intro acc; cbn [Sums.fold_arrays].
  - split; [discriminate | intro H; inversion H].
  - destruct (inplace_add acc y) as [z |] eqn:E.
    + rewrite IH, (inplace_add_length _ _ E).
      split; intro H.
      * apply Exists_cons_tl; exact H.
      * inversion H as [? ? B | ? ? B]; subst; [| exact B].
        apply inplace_add_none in B; congruence.
    + split; [| reflexivity].
      intros _; apply Exists_cons_hd; apply inplace_add_none; exact E.
Qed.

Lemma fold_inplace_same_length (rest : list (list F)) (acc : list F) :
  Forall (fun y => length y = length acc) rest ->
  Sums.fold_arrays inplace_add rest acc = Some (fold_left zip_add rest acc).
Proof.
  revert acc; induction rest as [| y rest IH]; intros acc H; [reflexivity|].
  inversion H as [| ? ? Hy Hr]; subst.
  cbn [Sums.fold_arrays fold_left]; rewrite (inplace_add_same_length _ _ Hy).
  apply IH; rewrite zip_add_length by congruence; exact Hr.
Qed.

(** *** [sum] follows the loop wherever the loop succeeds *)

Lemma inplace_add_broadcast (x y z : list F) :
  inplace_add x y = Some z -> broadcast_add x y = Some z.
Proof.
  unfold Sums.inplace_add, Sums.broadcast_add.
  destruct (Nat.eqb (length x) (length y)) eqn:E; [auto|].
  destruct y as [| y0 [| y1 y]]; try discriminate.
  destruct x as [| x0 [| x1 x]]; auto.
Qed.

Lemma fold_inplace_broadcast (rest : list (list F)) (acc z : list F) :
  Sums.fold_arrays inplace_add rest acc = Some z ->
  Sums.fold_arrays broadcast_add rest acc = Some z.
Proof.
  revert acc; induction rest as [| y rest IH]; intro acc; cbn [Sums.fold_arrays]; [auto|].
  destruct (inplace_add acc y) as [z' |] eqn:E; [| discriminate].
  rewrite (inplace_add_broadcast _ _ E); apply IH.
Qed.

Lemma py_add_last (s : store) (acc : list F) (w : nat) (y : list F) :
  nth_error s w = Some y ->
  py_add (Sums.Ref (length s)) w (s ++ [acc])
  = match broadcast_add acc y with
    | Some z => Some (Sums.Ref (length (s ++ [acc])), (s ++ [acc]) ++ [z])
    | None => None
    end.
Proof.
  intro H; unfold Sums.py_add, Sums.bind.
  rewrite read_last, (read_old s [acc] w H).
  unfold Sums.raise_or; destruct (broadcast_add acc y) as [z |]; reflexivity.
Qed.

Lemma deref_app (s g : store) (ws : list nat) (arrs : list (list F)) :
  Sums.deref s ws = Some arrs -> Sums.deref (s ++ g) ws = Some arrs.
Proof.
  revert arrs; induction ws as [| w ws IH]; intros arrs D; [exact D|].
  cbn [Sums.deref] in *.
  destruct (nth_error s w) as [y |] eqn:Hw; [| discriminate].
  destruct (Sums.deref s ws) as [rest |]; [| discriminate].
  rewrite nth_error_app1 by (apply nth_error_Some; congruence).
  rewrite Hw, (IH rest eq_refl); exact D.
Qed.

(** [sum] allocates a new array in every round: it ends with the total in
    the last array of a store that extends the one it started from. *)
Lemma gen_from_ref (ws : list nat) :
  forall (s : store) (arrs : list (list F)) (acc : list F),
    Sums.deref s ws = Some arrs ->
    match Sums.fold_arrays broadcast_add arrs acc with
    | Some z =>
        exists g : store,
          Sums.for_each py_add ws (Sums.Ref (length s)) (s ++ [acc])
          = Some (Sums.Ref (length (s ++ g)), (s ++ g) ++ [z])
    | None =>
        Sums.for_each py_add ws (Sums.Ref (length s)) (s ++ [acc]) = None
    end.
Proof.
  induction ws as [| w ws IH]; intros s arrs acc D.
  - cbn in D; injection D as <-; cbn [Sums.fold_arrays Sums.for_each].
    exists []; rewrite app_nil_r; reflexivity.
  - cbn [Sums.deref] in D.
    destruct (nth_error s w) as [y |] eqn:Hw; [| discriminate].
    destruct (Sums.deref s ws) as [rest |] eqn:Hr; [| discriminate].
    injection D as <-.
    cbn [Sums.for_each Sums.fold_arrays]; unfold Sums.bind at 1; unfold Sums.bind at 1.
    rewrite (py_add_last s acc w Hw).
    destruct (broadcast_add acc y) as [z |]; [| reflexivity].
    specialize (IH (s ++ [acc]) rest z (deref_app s [acc] ws Hr)).
    destruct (Sums.fold_arrays broadcast_add rest z) as [t |]; [| exact IH].
    destruct IH as [g IH]; exists ([acc] ++ g).
    rewrite IH, !app_assoc; reflexivity.
Qed.

Lemma for_each_map (A B C : Type) (g : A -> B) (body : C -> B -> Sums.M F C)
    (lst : list A) :
  forall (acc : C) (s : store),
    Sums.for_each (fun c x => body c (g x)) lst acc s
    = Sums.for_each body (map g lst) acc s.
Proof.
  induction lst as [| x lst IH]; intros acc s; [reflexivity|].
  cbn [map Sums.for_each]; unfold Sums.bind.
  destruct (body acc (g x) s) as [[acc' s'] |]; [apply IH | reflexivity].
Qed.

(** *** What the loop writes *)

Lemma zero_plus_fresh (s s' : store) (w : nat) (v : Sums.value) :
  Sums.zero_plus zero add w s = Some (v, s') ->
  exists z, v = Sums.Ref (length s) /\ s' = s ++ [z].
Proof.
  unfold Sums.zero_plus, Sums.bind, Sums.read, Sums.alloc, Sums.ret.
  destruct (nth_error s w) as [arr |]; [| discriminate].
  intro H; injection H as <- <-; eexists; split; reflexivity.
Qed.

Lemma py_iadd_last_frame (s s' : store) (acc : list F) (w : nat) (v : Sums.value) :
  py_iadd (Sums.Ref (length s)) w (s ++ [acc]) = Some (v, s') ->
  exists z, v = Sums.Ref (length s) /\ s' = s ++ [z].
Proof.
  unfold Sums.py_iadd, Sums.bind; rewrite read_last.
  destruct (Sums.read w (s ++ [acc])) as [[y s1] |] eqn:R; [| discriminate].
  assert (s1 = s ++ [acc]) as ->.
  { unfold Sums.read in R; destruct (nth_error (s ++ [acc]) w); [| discriminate].
    injection R as _ <-; reflexivity. }
  unfold Sums.raise_or; destruct (inplace_add acc y) as [z |]; [| discriminate].
  rewrite write_last; unfold Sums.ret.
  intro H; injection H as <- <-; eexists; split; reflexivity.
Qed.

Lemma loop_frame_from_ref (s : store) (ws : list nat) :
  forall (acc : list F) (v : Sums.value) (s' : store),
    Sums.for_each py_iadd ws (Sums.Ref (length s)) (s ++ [acc]) = Some (v, s') ->
    exists z, v = Sums.Ref (length s) /\ s' = s ++ [z].
Proof.
  induction ws as [| w ws IH]; intros acc v s' H.
  - cbn in H; injection H as <- <-; eexists; split; reflexivity.
  - cbn [Sums.for_each] in H; unfold Sums.bind at 1 in H.
    destruct (py_iadd (Sums.Ref (length s)) w (s ++ [acc])) as [[v1 s1] |] eqn:E;
      [| discriminate].
    destruct (py_iadd_last_frame s acc w E) as [z [-> ->]].
    apply (IH z v s' H).
Qed.

Lemma loop_sum_wrap_unwrap (ws : list Sums.Wrap) (s : store) :
  loop_sum_wrap ws s = loop_sum (map Sums.a ws) s.
Proof.
  unfold Sums.loop_sum_wrap, Sums.loop_sum; apply (for_each_map Sums.a py_iadd).
Qed.

(** ** Properties of the summation helpers *)

(** X8.  Summing the attribute of wrapped arrays is summing the arrays: on
    every store [loop_sum_wrap(lst)] does what [loop_sum([w.a for w in lst])]
    does, and [loop_sum_wrap([Wrap(v) for v in lst])] what [loop_sum(lst)]
    does (same result, same store afterwards, same error). *)
Theorem loop_sum_wrap_is_loop_sum :
  forall (ws : list Sums.Wrap) (lst : list nat) (s : store),
    loop_sum_wrap ws s = loop_sum (map Sums.a ws) s
    /\ loop_sum_wrap (Sums.wrap_all lst) s = loop_sum lst s.
Proof.
  intros ws lst s; split; [apply loop_sum_wrap_unwrap|].
  rewrite loop_sum_wrap_unwrap; unfold Sums.wrap_all.
  rewrite map_map, map_id; reflexivity.
Qed.

(** X9.  On a non-empty list of references to arrays of one common length,
    [loop_sum] does not raise; it allocates one array and returns it, and
    that array holds the component-wise sum of the arrays as they were at the
    call, added from left to right onto [0 + first]. *)
Theorem loop_sum_componentwise :
  forall (s : store) (w : nat) (ws : list nat)
         (first : list F) (rest : list (list F)),
    Sums.deref s (w :: ws) = Some (first :: rest) ->
    Forall (fun y => length y = length first) rest ->
    loop_sum (w :: ws) s
    = Some (Sums.Ref (length s),
            s ++ [fold_left zip_add rest (map (fun x => add zero x) first)]).
Proof.
  intros s w ws first rest D L.
  rewrite (loop_sum_total s w ws D); unfold Sums.loop_total.
  rewrite fold_inplace_same_length; [reflexivity|].
  rewrite length_map; exact L.
Qed.

(** X10.  On references to arrays of the store, [loop_sum] raises exactly when
    one of the arrays after the first has a length that is neither the length
    of the first array nor 1. *)
Theorem loop_sum_raises_iff :
  forall (s : store) (w : nat) (ws : list nat)
         (first : list F) (rest : list (list F)),
    Sums.deref s (w :: ws) = Some (first :: rest) ->
    (loop_sum (w :: ws) s = None
     <-> Exists (fun y => length y <> length first /\ length y <> 1) rest).
Proof.
  intros s w ws first rest D.
  rewrite (loop_sum_total s w ws D).
  rewrite <- (length_map (fun x => add zero x) first), <- fold_inplace_none.
  unfold Sums.loop_total.
  destruct (Sums.fold_arrays inplace_add rest (map (fun x => add zero x) first));
    split; intro H; try discriminate; reflexivity.
Qed.

(** X11.  [loop_sum] never writes into an array it is given: when it returns,
    the store is the store of the call, with one new array after it when the
    list is not empty; the result is the [int] 0 for the empty list and a
    reference to the new array otherwise. *)
Theorem loop_sum_keeps_inputs :
  forall (lst : list nat) (s s' : store) (v : Sums.value),
    loop_sum lst s = Some (v, s') ->
    (lst = [] /\ v = Sums.PyZero /\ s' = s)
    \/ (lst <> [] /\ exists z, v = Sums.Ref (length s) /\ s' = s ++ [z]).
Proof.
  intros [| w ws] s s' v H.
  - left; cbn in H; injection H as <- <-; auto.
  - right; split; [discriminate|].
    unfold Sums.loop_sum in H; cbn [Sums.for_each] in H; unfold Sums.bind at 1 in H.
    cbn [Sums.py_iadd] in H.
    destruct (Sums.zero_plus zero add w s) as [[v1 s1] |] eqn:E; [| discriminate].
    destruct (zero_plus_fresh s w E) as [z0 [-> ->]].
    apply (loop_frame_from_ref s ws z0 H).
Qed.

(** X12.  Wherever [loop_sum_wrap] returns, [gen_sum_wrap] returns too, with
    an array of the same content (or the [int] 0 for the empty list), in a
    store that extends the store of the call.  The converse fails: on an
    array of length 1 followed by an array of length 2, [sum] broadcasts and
    the loop raises. *)
Theorem gen_sum_wrap_follows_loop :
  (forall (ws : list Sums.Wrap) (s s1 : store) (arrs : list (list F))
          (v : Sums.value),
      Sums.deref s (map Sums.a ws) = Some arrs ->
      loop_sum_wrap ws s = Some (v, s1) ->
      exists (v' : Sums.value) (g : store),
        gen_sum_wrap ws s = Some (v', s ++ g)
        /\ Sums.content (s ++ g) v' = Sums.content s1 v
        /\ (v = Sums.PyZero <-> v' = Sums.PyZero))
  /\ (forall x y1 y2 : F,
         loop_sum_wrap (Sums.wrap_all [0; 1]) [[x]; [y1; y2]] = None
         /\ gen_sum_wrap (Sums.wrap_all [0; 1]) [[x]; [y1; y2]]
            = Some (Sums.Ref 3,
                    [[x]; [y1; y2]; [add zero x];
                     [add (add zero x) y1; add (add zero x) y2]])).
Proof.
  split; [| intros; split; reflexivity].
  intros ws s s1 arrs v D H.
  rewrite loop_sum_wrap_unwrap in H.
  unfold Sums.gen_sum_wrap; rewrite (for_each_map Sums.a py_add).
  destruct (map Sums.a ws) as [| w lst].
  - cbn in H; injection H as <- <-.
    exists Sums.PyZero, []; rewrite app_nil_r; repeat split; auto.
  - destruct arrs as [| first rest];
      [cbn [Sums.deref] in D; destruct (nth_error s w), (Sums.deref s lst); discriminate|].
    rewrite (loop_sum_total s w lst D) in H.
    destruct (loop_total first rest) as [z |] eqn:T; [| discriminate].
    injection H as <- <-.
    cbn [Sums.deref] in D.
    destruct (nth_error s w) as [y |] eqn:Hw; [| discriminate].
    destruct (Sums.deref s lst) as [tl |] eqn:Hr; [| discriminate].
    injection D as <- <-.
    cbn [Sums.for_each]; unfold Sums.bind at 1; cbn [Sums.py_add].
    rewrite (zero_plus_old s w Hw).
    pose proof (gen_from_ref lst s (map (fun x => add zero x) y) Hr) as G.
    unfold Sums.loop_total in T; rewrite (fold_inplace_broadcast _ _ T) in G.
    destruct G as [g G].
    exists (Sums.Ref (length (s ++ g))), (g ++ [z]).
    rewrite G, app_assoc; split; [reflexivity|].
    split; [| split; discriminate].
    cbn [Sums.content].
    rewrite !nth_error_app2, !Nat.sub_diag by lia; reflexivity.
Qed.

End WithArithmetic.
End SumsFacts.

(** *** The helpers on two small arrays, the first of them listed twice *)

Lemma loop_sum_componentwise_witness :
  Sums.loop_sum 0%float PrimFloat.add [0; 1; 0] [[1; 2]%float; [3; 4]%float]
  = Some (Sums.Ref 2,
          [[1; 2]%float; [3; 4]%float]
          ++ [fold_left (Sums.zip_add PrimFloat.add)
                [[3; 4]%float; [1; 2]%float]
                (map (fun x => PrimFloat.add 0%float x) [1; 2]%float)]).
Proof.
  apply (@SumsFacts.loop_sum_componentwise float 0%float PrimFloat.add
           [[1; 2]%float; [3; 4]%float] 0 [1; 0]
           [1; 2]%float [[3; 4]%float; [1; 2]%float]);
    [reflexivity | repeat constructor].
Defined.

Lemma loop_sum_raises_iff_witness :
  Sums.loop_sum 0%float PrimFloat.add [0; 1] [[1; 2]%float; [3; 4; 5]%float] = None
  <-> Exists (fun y => length y <> length [1; 2]%float /\ length y <> 1)
        [[3; 4; 5]%float].
Proof.
  apply (@SumsFacts.loop_sum_raises_iff float 0%float PrimFloat.add
           [[1; 2]%float; [3; 4; 5]%float] 0 [1]
           [1; 2]%float [[3; 4; 5]%float]);
    reflexivity.
Defined.

Lemma loop_sum_keeps_inputs_witness :
  ([0; 1] = [] /\ Sums.Ref 2 = Sums.PyZero
   /\ [[1; 2]%float; [3; 4]%float; [4; 6]%float] = [[1; 2]%float; [3; 4]%float])
  \/ ([0; 1] <> []
      /\ exists z,
           Sums.Ref 2 = Sums.Ref (length [[1; 2]%float; [3; 4]%float])
           /\ [[1; 2]%float; [3; 4]%float; [4; 6]%float]
              = [[1; 2]%float; [3; 4]%float] ++ [z]).
Proof.
  apply (@SumsFacts.loop_sum_keeps_inputs float 0%float PrimFloat.add [0; 1]
           [[1; 2]%float; [3; 4]%float]
           [[1; 2]%float; [3; 4]%float; [4; 6]%float]
           (Sums.Ref 2));
    reflexivity.
Defined.

Lemma gen_sum_wrap_follows_loop_witness :
  exists (v' : Sums.value) (g : Sums.store float),
    Sums.gen_sum_wrap 0%float PrimFloat.add (Sums.wrap_all [0; 1; 0])
      [[1; 2]%float; [3; 4]%float]
    = Some (v', [[1; 2]%float; [3; 4]%float] ++ g)
    /\ Sums.content ([[1; 2]%float; [3; 4]%float] ++ g) v'
       = Sums.content [[1; 2]%float; [3; 4]%float; [5; 8]%float] (Sums.Ref 2)
    /\ (Sums.Ref 2 = Sums.PyZero <-> v' = Sums.PyZero).
Proof.
  apply (proj1 (@SumsFacts.gen_sum_wrap_follows_loop float 0%float PrimFloat.add)
           (Sums.wrap_all [0; 1; 0]) [[1; 2]%float; [3; 4]%float]
           [[1; 2]%float; [3; 4]%float; [5; 8]%float]
           [[1; 2]%float; [3; 4]%float; [1; 2]%float] (Sums.Ref 2));
    reflexivity.
Defined.
